(** * anti-chatice: the content script [content.js]

    A shallow embedding of the content script that hides the elements of a
    page selected by a list of rules, once over the whole document and then
    over every subtree the page inserts, together with the part of the
    browser it talks to: the document tree, [querySelectorAll] over a
    fragment of CSS selectors, and the inline style of an element.

    Conventions.
    - Strings are sequences of bytes, the UTF-8 form of the text. The
      case mappings of the DOM and of selectors, [ascii_upper] and
      [ascii_lower], act on the ASCII letters and leave other bytes alone.
      The case mappings of JavaScript, [String.prototype.toUpperCase] and
      [String.prototype.toLowerCase], follow Unicode and its special
      casing; they are parameters of the development (section [Host]),
      and the only thing ever assumed of them, where a statement says so,
      is that on ASCII strings they are the ASCII mappings.
    - The document is an HTML document and its elements are HTML elements,
      with local names and attribute names in lower case as the HTML
      parser leaves them: [tagName] is the ASCII upper case of the local
      name, a type selector compares with it case-insensitively, the name
      of an attribute is looked up in ASCII lower case. Whether the
      document is in quirks mode is the parameter [quirks]: there a class
      selector compares class names ASCII case-insensitively. An
      attribute selector compares values exactly, except for the
      attributes of [case_insensitive_attributes], whose values HTML
      compares ASCII case-insensitively in selectors.
    - A node is referred to by its path from the root element (the list of
      child indices), which plays the role of the object reference.
    - The inline style is kept as the field [style_display]; the [style]
      content attribute, which the script itself rewrites when it hides an
      element, is not part of [attributes], and the statements that depend
      on what a selector sees are made for selectors that do not name it
      ([avoids_style]).
    - The [href] property of an anchor is a field of its own next to the
      [href] attribute: the browser computes it from the attribute and the
      address of the page.
    - A selector outside the fragment modelled here ends the run of the
      model with [OutOfFragment]: the model says nothing of what the
      browser does from there on. *)

From Stdlib Require Import Ascii.
From Stdlib Require String.
From stdpp Require Import base list strings.
From Stdlib Require Import Permutation.

Set Warnings "-register-all".

(** ** Characters and strings *)

Module Chars.

Definition code (c : ascii) : nat := nat_of_ascii c.

Definition is_upper (c : ascii) : bool :=
  (65 <=? code c) && (code c <=? 90).
Definition is_lower (c : ascii) : bool :=
  (97 <=? code c) && (code c <=? 122).
Definition is_letter (c : ascii) : bool := is_upper c || is_lower c.
Definition is_digit (c : ascii) : bool :=
  (48 <=? code c) && (code c <=? 57).
Definition is_non_ascii (c : ascii) : bool := 128 <=? code c.

(** ASCII whitespace of the DOM standard: TAB, LF, FF, CR, SPACE. *)
Definition is_space (c : ascii) : bool :=
  (code c =? 9) || (code c =? 10) || (code c =? 12) || (code c =? 13)
  || (code c =? 32).

Definition upper (c : ascii) : ascii :=
  if is_lower c then ascii_of_nat (code c - 32) else c.
Definition lower (c : ascii) : ascii :=
  if is_upper c then ascii_of_nat (code c + 32) else c.

Definition dquote : ascii := "034"%char.
Definition backslash : ascii := "\"%char.
Definition dot : ascii := "."%char.
Definition dash : ascii := "-"%char.
Definition slash : ascii := "/"%char.
Definition star : ascii := "*"%char.
Definition equals : ascii := "="%char.
Definition lbracket : ascii := "["%char.
Definition rbracket : ascii := "]"%char.

Definition eqb (a b : ascii) : bool := Ascii.eqb a b.

(** Identifier code points of CSS Syntax: a name starts with a letter, an
    underscore or a non-ASCII code point and goes on with those, digits and
    hyphens. *)
Definition is_name_start (c : ascii) : bool :=
  is_letter c || (code c =? 95) || is_non_ascii c.
Definition is_name_char (c : ascii) : bool :=
  is_name_start c || is_digit c || (code c =? 45).

(** What may stand between the quotes of a CSS string without an escape. *)
Definition is_string_char (c : ascii) : bool :=
  negb (eqb c dquote) && negb (eqb c backslash)
  && negb (code c =? 10) && negb (code c =? 12) && negb (code c =? 13)
  && negb (code c =? 0).

End Chars.

Fixpoint ascii_upper (s : string) : string :=
  match s with
  | EmptyString => EmptyString
  | String c s' => String (Chars.upper c) (ascii_upper s')
  end.

Fixpoint ascii_lower (s : string) : string :=
  match s with
  | EmptyString => EmptyString
  | String c s' => String (Chars.lower c) (ascii_lower s')
  end.

(** Equality up to the case of the ASCII letters. *)
Definition eq_ignoring_case (a b : string) : bool :=
  String.eqb (ascii_lower a) (ascii_lower b).

(** [startsWith s p]: [p] is a prefix of [s]. *)
Fixpoint startsWith (s p : string) : bool :=
  match p, s with
  | EmptyString, _ => true
  | String a p', String b s' => Chars.eqb a b && startsWith s' p'
  | String _ _, EmptyString => false
  end.

(** [String.prototype.includes]: [needle] occurs in [s] as a substring. *)
Fixpoint includes (s needle : string) : bool :=
  startsWith s needle ||
  match s with
  | EmptyString => false
  | String _ s' => includes s' needle
  end.

Definition all_chars (f : ascii → bool) (s : string) : bool :=
  forallb f (String.list_ascii_of_string s).

(** Every byte is an ASCII character. *)
Definition is_ascii (s : string) : bool :=
  all_chars (λ c, negb (Chars.is_non_ascii c)) s.

(** JavaScript truthiness of a string: only the empty string is falsy. *)
Definition truthy (s : string) : bool :=
  match s with EmptyString => false | _ => true end.

Definition snoc (s : string) (c : ascii) : string :=
  s +:+ String c EmptyString.

(** A CSS identifier without escapes. *)
Definition is_ident (s : string) : bool :=
  match s with
  | EmptyString => false
  | String c s' =>
      if Chars.is_name_start c then all_chars Chars.is_name_char s'
      else if Chars.eqb c Chars.dash then
        match s' with
        | EmptyString => false
        | String d s'' =>
            (Chars.is_name_start d || Chars.eqb d Chars.dash)
            && all_chars Chars.is_name_char s''
        end
      else false
  end.

(** The split of an attribute value on ASCII whitespace (the token set of a
    [DOMTokenList]). *)
Fixpoint tokens_from (acc : string) (s : string) : list string :=
  match s with
  | EmptyString => if truthy acc then [acc] else []
  | String c s' =>
      if Chars.is_space c
      then (if truthy acc then acc :: tokens_from EmptyString s'
            else tokens_from EmptyString s')
      else tokens_from (snoc acc c) s'
  end.

Definition tokens (s : string) : list string := tokens_from EmptyString s.

(** ** CSS selectors

    The fragment of Selectors that the script's own queries live in:
    a compound selector made of an optional type selector (or [*]) followed
    by class selectors [.c], attribute-presence selectors [[a]] and
    attribute selectors [[a="v"]] and [[a*="v"]] with a double-quoted value
    free of escapes. *)

Inductive attr_op := OpEquals | OpContains.

Inductive simple_selector :=
| SClass (name : string)
| SAttrHas (name : string)
| SAttr (name : string) (op : attr_op) (value : string).

Record compound := Compound {
  sel_type : option string;
  sel_simple : list simple_selector
}.

(** The outcome of parsing a selector text: a selector of the fragment; a
    text no CSS parser accepts ([querySelectorAll] throws a [SyntaxError]);
    or a text that leaves the fragment (combinators, selector lists,
    pseudo-classes, escapes, comments, unquoted values, text cut short
    inside a bracket or a string, ...), about which nothing is said. *)
Inductive parse_result :=
| Parsed (c : compound)
| Invalid
| Outside.

Inductive ident_role := RType | RClass | RAttr.

Inductive pstate :=
| PStart
| PIdentStart (r : ident_role)
| PIdentDash (r : ident_role)
| PIdent (r : ident_role) (acc : string)
| PNext
| PStar (name : string)
| PQuote (name : string) (op : attr_op)
| PString (name : string) (op : attr_op) (acc : string)
| PClose (name : string) (op : attr_op) (value : string).

Record pconfig := PConfig {
  pc_state : pstate;
  pc_type : option string;
  pc_simple : list simple_selector
}.

Inductive pstep := Go (c : pconfig) | Stop (r : parse_result).

(** After a ['.'] only the start of an identifier, an escape or a comment
    can follow (a NUL is read as a replacement character); anything else is
    a syntax error. *)
Definition bad_ident_start (r : ident_role) (c : ascii) : parse_result :=
  match r with
  | RClass =>
      if Chars.eqb c Chars.backslash || Chars.eqb c Chars.slash
         || (Chars.code c =? 0)
      then Outside else Invalid
  | _ => Outside
  end.

Definition bad_ident_dash (r : ident_role) (c : ascii) : parse_result :=
  match r with
  | RClass =>
      if Chars.eqb c Chars.backslash || (Chars.code c =? 0)
      then Outside else Invalid
  | _ => Outside
  end.

(** What follows a closed simple selector or type selector. *)
Definition after_simple (ty : option string) (ss : list simple_selector)
    (c : ascii) : pstep :=
  if Chars.eqb c Chars.dot then Go (PConfig (PIdentStart RClass) ty ss)
  else if Chars.eqb c Chars.lbracket then Go (PConfig (PIdentStart RAttr) ty ss)
  else Stop Outside.

Definition end_ident (r : ident_role) (acc : string) (ty : option string)
    (ss : list simple_selector) (c : ascii) : pstep :=
  match r with
  | RType => after_simple (Some acc) ss c
  | RClass => after_simple ty (ss ++ [SClass acc]) c
  | RAttr =>
      if Chars.eqb c Chars.rbracket
      then Go (PConfig PNext ty (ss ++ [SAttrHas acc]))
      else if Chars.eqb c Chars.equals
      then Go (PConfig (PQuote acc OpEquals) ty ss)
      else if Chars.eqb c Chars.star
      then Go (PConfig (PStar acc) ty ss)
      else Stop Outside
  end.

(** The attribute modifiers are [i] and [s]; an identifier starting with
    another letter after the value is a syntax error. *)
Definition is_modifier_start (c : ascii) : bool :=
  Chars.eqb (Chars.lower c) "i"%char || Chars.eqb (Chars.lower c) "s"%char.

Definition step (cfg : pconfig) (c : ascii) : pstep :=
  let ty := pc_type cfg in
  let ss := pc_simple cfg in
  match pc_state cfg with
  | PStart =>
      if Chars.eqb c Chars.star then Go (PConfig PNext ty ss)
      else if Chars.eqb c Chars.dash then Go (PConfig (PIdentDash RType) ty ss)
      else if Chars.is_name_start c
      then Go (PConfig (PIdent RType (String c EmptyString)) ty ss)
      else after_simple ty ss c
  | PIdentStart r =>
      if Chars.is_name_start c
      then Go (PConfig (PIdent r (String c EmptyString)) ty ss)
      else if Chars.eqb c Chars.dash then Go (PConfig (PIdentDash r) ty ss)
      else Stop (bad_ident_start r c)
  | PIdentDash r =>
      if Chars.is_name_start c || Chars.eqb c Chars.dash
      then Go (PConfig (PIdent r (String Chars.dash (String c EmptyString))) ty ss)
      else Stop (bad_ident_dash r c)
  | PIdent r acc =>
      if Chars.is_name_char c then Go (PConfig (PIdent r (snoc acc c)) ty ss)
      else end_ident r acc ty ss c
  | PNext => after_simple ty ss c
  | PStar name =>
      if Chars.eqb c Chars.equals
      then Go (PConfig (PQuote name OpContains) ty ss)
      else Stop Outside
  | PQuote name op =>
      if Chars.eqb c Chars.dquote
      then Go (PConfig (PString name op EmptyString) ty ss)
      else Stop Outside
  | PString name op acc =>
      if Chars.eqb c Chars.dquote then Go (PConfig (PClose name op acc) ty ss)
      else if Chars.is_string_char c
      then Go (PConfig (PString name op (snoc acc c)) ty ss)
      else Stop Outside
  | PClose name op value =>
      if Chars.eqb c Chars.rbracket
      then Go (PConfig PNext ty (ss ++ [SAttr name op value]))
      else if Chars.is_letter c && negb (is_modifier_start c)
      then Stop Invalid
      else Stop Outside
  end.

(** The end of the text. The empty selector and a ['.'] without a name are
    syntax errors; a text that ends inside a bracket is left open. *)
Definition finish (cfg : pconfig) : parse_result :=
  match pc_state cfg with
  | PStart => Invalid
  | PIdentStart RClass | PIdentDash RClass => Invalid
  | PIdent RType acc => Parsed (Compound (Some acc) (pc_simple cfg))
  | PIdent RClass acc =>
      Parsed (Compound (pc_type cfg) (pc_simple cfg ++ [SClass acc]))
  | PNext => Parsed (Compound (pc_type cfg) (pc_simple cfg))
  | _ => Outside
  end.

Fixpoint parse_from (cfg : pconfig) (s : string) : parse_result :=
  match s with
  | EmptyString => finish cfg
  | String c s' =>
      match step cfg c with
      | Go cfg' => parse_from cfg' s'
      | Stop r => r
      end
  end.

Definition parse_selector (s : string) : parse_result :=
  parse_from (PConfig PStart None []) s.

(** ** The document tree *)

(** An element: its local name, its content attributes in document order,
    the value its [href] property returns (for an anchor, the URL the
    browser resolves the [href] attribute to against the address of the
    page), and the [display] property of its inline style. *)
Record element := {
  localName : string;
  attributes : list (string * string);
  href : string;
  style_display : string
}.

Inductive node :=
| Element (e : element) (childNodes : list node)
| Text (data : string)
| Comment (data : string).

(** A reference to a node: the child indices on the way from the root. *)
Abbreviation ref := (list nat).

(** The state the script runs on: the root element of the document. *)
Definition document := node.

Definition ELEMENT_NODE : nat := 1.

Definition nodeType (n : node) : nat :=
  match n with
  | Element _ _ => 1
  | Text _ => 3
  | Comment _ => 8
  end.

Fixpoint lookup_attr (name : string) (l : list (string * string)) : option string :=
  match l with
  | [] => None
  | (k, v) :: l' => if String.eqb k name then Some v else lookup_attr name l'
  end.

Definition tagName (n : node) : string :=
  match n with
  | Element e _ => ascii_upper (localName e)
  | _ => EmptyString
  end.

Definition getAttribute (name : string) (n : node) : option string :=
  match n with
  | Element e _ => lookup_attr (ascii_lower name) (attributes e)
  | _ => None
  end.

Definition classList (n : node) : list string :=
  match getAttribute "class" n with
  | Some v => tokens v
  | None => []
  end.

(** [classList.contains] *)
Definition contains (l : list string) (token : string) : bool :=
  existsb (String.eqb token) l.

(** The [title] property reflects the content attribute. *)
Definition title (n : node) : string :=
  match getAttribute "title" n with
  | Some v => v
  | None => EmptyString
  end.

Definition node_href (n : node) : string :=
  match n with
  | Element e _ => href e
  | _ => EmptyString
  end.

Definition display (n : node) : string :=
  match n with
  | Element e _ => style_display e
  | _ => EmptyString
  end.

Definition text_of_children (f : node → string) : list node → string :=
  fix go (cs : list node) : string :=
    match cs with
    | [] => EmptyString
    | c :: cs' => f c +:+ go cs'
    end.

(** The data of the text nodes below a node, in tree order. *)
Fixpoint text_under (n : node) : string :=
  match n with
  | Element _ cs => text_of_children text_under cs
  | Text d => d
  | Comment _ => EmptyString
  end.

Definition textContent (n : node) : string :=
  match n with
  | Comment d => d
  | _ => text_under n
  end.

Fixpoint lookup_node (p : ref) (n : node) : option node :=
  match p with
  | [] => Some n
  | i :: p' =>
      match n with
      | Element _ cs =>
          match cs !! i with
          | Some c => lookup_node p' c
          | None => None
          end
      | _ => None
      end
  end.

Definition below (i : nat) (x : ref * node) : ref * node := (i :: x.1, x.2).

Definition flat_children (f : node → list (ref * node)) :
    nat → list node → list (ref * node) :=
  fix go (i : nat) (cs : list node) : list (ref * node) :=
    match cs with
    | [] => []
    | c :: cs' => (below i <$> f c) ++ go (S i) cs'
    end.

(** The elements of a subtree in tree order, the root included, each with
    its reference relative to the root of the subtree. *)
Fixpoint elements_of (n : node) : list (ref * node) :=
  match n with
  | Element _ cs => ([], n) :: flat_children elements_of 0 cs
  | _ => []
  end.

(** The element descendants of a node, the node itself excluded. *)
Definition descendants (n : node) : list (ref * node) :=
  match n with
  | Element _ cs => flat_children elements_of 0 cs
  | _ => []
  end.

Definition hidden (n : node) : bool := String.eqb (display n) "none".

Definition with_display (v : string) (e : element) : element :=
  {| localName := localName e; attributes := attributes e;
     href := href e; style_display := v |}.

(** [set_display v p d]: the document [d] after [style.display = v] on the
    element that [p] refers to. *)
Fixpoint set_display (v : string) (p : ref) (n : node) : node :=
  match n with
  | Element e cs =>
      match p with
      | [] => Element (with_display v e) cs
      | i :: p' =>
          match cs !! i with
          | Some c => Element e (<[i := set_display v p' c]> cs)
          | None => n
          end
      end
  | _ => n
  end.

(** ** What selectors compare *)

(** The attributes whose values a selector compares ASCII
    case-insensitively on the HTML elements of an HTML document. *)
Definition case_insensitive_attributes : list string :=
  [ "accept"; "accept-charset"; "align"; "alink"; "axis"; "bgcolor";
    "charset"; "checked"; "clear"; "codetype"; "color"; "compact";
    "declare"; "defer"; "dir"; "direction"; "disabled"; "enctype"; "face";
    "frame"; "hreflang"; "http-equiv"; "lang"; "language"; "link"; "media";
    "method"; "multiple"; "nohref"; "noresize"; "noshade"; "nowrap";
    "readonly"; "rel"; "rev"; "rules"; "scope"; "scrolling"; "selected";
    "shape"; "target"; "text"; "type"; "valign"; "valuetype"; "vlink" ].

Definition case_insensitive (a : string) : bool :=
  contains case_insensitive_attributes (ascii_lower a).

(** [[a="v"]] on an element whose attribute [a] is [w]. *)
Definition value_equals (a w v : string) : bool :=
  if case_insensitive a then eq_ignoring_case w v else String.eqb w v.

(** [[a*="v"]] on an element whose attribute [a] is [w], for [v] not
    empty. *)
Definition value_includes (a w v : string) : bool :=
  if case_insensitive a
  then includes (ascii_lower w) (ascii_lower v)
  else includes w v.

(** The selector names the [style] attribute. *)
Definition names_style (s : simple_selector) : bool :=
  match s with
  | SClass _ => false
  | SAttrHas a | SAttr a _ _ => String.eqb (ascii_lower a) "style"
  end.

Definition avoids_style (c : compound) : bool :=
  forallb (λ s, negb (names_style s)) (sel_simple c).

(** The local name of the element is made of ASCII characters, as the
    names of the elements of HTML are. *)
Definition ascii_named (n : node) : bool :=
  match n with
  | Element e _ => is_ascii (localName e)
  | _ => true
  end.

(** Every element of the tree has an ASCII name. *)
Fixpoint ascii_names (n : node) : bool :=
  match n with
  | Element e cs => is_ascii (localName e) && forallb ascii_names cs
  | _ => true
  end.

(** ** Running the script: state that persists, exceptions that abort *)

Inductive exn := SyntaxError | TypeError.

(** How a run ends: normally with a value, by throwing, or at a query
    whose selector text leaves the fragment of CSS modelled here. *)
Inductive completion (A : Type) :=
| Normal (a : A)
| Throw (e : exn)
| OutOfFragment.
Arguments Normal {A} a.
Arguments Throw {A} e.
Arguments OutOfFragment {A}.

(** A computation over the document: the changes made before a throw stay. *)
Definition M (A : Type) : Type := document → document * completion A.

Definition ret {A} (a : A) : M A := λ d, (d, Normal a).

Definition bind {A B} (m : M A) (k : A → M B) : M B :=
  λ d, match m d with
       | (d', Normal a) => k a d'
       | (d', Throw e) => (d', Throw e)
       | (d', OutOfFragment) => (d', OutOfFragment)
       end.

Notation "'let*' x := m 'in' k" := (bind m (λ x, k))
  (at level 10, x name, m at level 100, k at level 200, only parsing).
Notation "m >> k" := (bind m (λ _, k))
  (at level 100, k at level 200, right associativity, only parsing).

Definition when (b : bool) (m : M unit) : M unit := if b then m else ret tt.

(** [Array.prototype.forEach] / [NodeList.prototype.forEach] *)
Fixpoint forEach {A} (l : list A) (f : A → M unit) : M unit :=
  match l with
  | [] => ret tt
  | x :: l' => f x >> forEach l' f
  end.

(** Reading a property of the node behind a reference (a reference that
    leads nowhere stands for [undefined]: [TypeError]). *)
Definition read {A} (f : node → A) (p : ref) : M A :=
  λ d, match lookup_node p d with
       | Some n => (d, Normal (f n))
       | None => (d, Throw TypeError)
       end.

(** ** The rules ([config.js]) *)

(** A rule as the script reads it: the tag [type] and the fields [value],
    [selector] and [attr], of which each kind of rule uses some. *)
Record rule := Rule {
  type : string;
  value : string;
  selector : string;
  attr : string
}.

Definition q : string := String Chars.dquote EmptyString.

(** A record of a mutation batch: its [type] and its [addedNodes], as
    references into the document the callback runs on. *)
Record mutation := Mutation {
  mutation_type : string;
  addedNodes : list ref
}.

(** What the script has set up in the page: the document, whether
    [hideAllElements] listens to [DOMContentLoaded], and whether the
    observer is installed. *)
Record page := Page {
  dom : document;
  loadListener : bool;
  observing : bool
}.

(** What the host sends to the page afterwards. *)
Inductive event :=
| DOMContentLoaded
| Mutations (batch : list mutation).

(** ** Sample pages *)

Module Sample.

Definition el (name : string) (attrs : list (string * string))
    (children : list node) : node :=
  Element {| localName := name; attributes := attrs;
             href := EmptyString; style_display := EmptyString |} children.

(** An anchor with its [href] attribute and the URL it resolves to. *)
Definition a (attr resolved : string) (children : list node) : node :=
  Element {| localName := "a"; attributes := [("href", attr)];
             href := resolved; style_display := EmptyString |} children.

Definition hidden_el (name : string) (attrs : list (string * string))
    (children : list node) : node :=
  Element {| localName := name; attributes := attrs;
             href := EmptyString; style_display := "none" |} children.

Definition class_rule (v : string) : rule := Rule "class" v EmptyString EmptyString.
Definition href_rule (v : string) : rule := Rule "href" v EmptyString EmptyString.
Definition content_rule (sel v : string) : rule := Rule "content" v sel EmptyString.
Definition title_rule (sel v : string) : rule := Rule "title" v sel EmptyString.
Definition attribute_rule (a v : string) : rule := Rule "attribute" v EmptyString a.

(** The page of the scenarios: [body] with a promoted block, two links, a
    headline in a [span] and the same text in a [div], and two blocks
    marked with [data-area]. *)
Definition page : document :=
  el "body" []
    [ el "div" [("class", "BIG_BROTHER_BRASIL")] [Text "x"];
      a "https://site.com/bbb/post" "https://site.com/bbb/post" [Text "text"];
      a "https://site.com/other" "https://site.com/other" [Text "more"];
      el "span" [] [Text "Yasmin Brunet entrevista"];
      el "div" [] [Text "Yasmin Brunet entrevista"];
      el "div" [("data-area", "splash")] [];
      el "div" [("data-area", "splash-extra")] [] ].

(** A page served from [https://bbb.example/] with a relative link. *)
Definition relative_page : document :=
  el "body" [] [ a "/post" "https://bbb.example/post" [Text "post"] ].

(** A widget inserted as one subtree: a [div] around a link. *)
Definition widget_page : document :=
  el "body" []
    [ el "div" [] [ a "https://site.com/bbb/live" "https://site.com/bbb/live" [Text "x"] ];
      el "p" [("class", "ad")] [Text "buy"] ].


(** A page part of which is hidden already. *)
Definition half_hidden_page : document :=
  el "body" []
    [ hidden_el "div" [("class", "ad")] [Text "buy"];
      el "div" [("class", "ad")] [Text "more"] ].

End Sample.

(** Case analysis on the type tag of a rule, in the order of the script. *)
Ltac rule_cases r :=
  destruct (String.eqb (type r) "class") eqn:?Hclass;
  [|destruct (String.eqb (type r) "href") eqn:?Hhref;
    [|destruct (String.eqb (type r) "content") eqn:?Hcontent;
      [|destruct (String.eqb (type r) "title") eqn:?Htitle;
        [|destruct (String.eqb (type r) "attribute") eqn:?Hattribute]]]].

(** ** The host of the script *)

Section Host.

(** The document is in quirks mode ([document.compatMode] is
    ["BackCompat"]). *)
Variable quirks : bool.

(** [String.prototype.toUpperCase] and [String.prototype.toLowerCase]. *)
Variable toUpperCase toLowerCase : string → string.

(** On ASCII strings they are the ASCII mappings. *)
Definition ascii_case_mappings : Prop :=
  (∀ s, is_ascii s = true → toUpperCase s = ascii_upper s)
  ∧ (∀ s, is_ascii s = true → toLowerCase s = ascii_lower s).

(** ** Selector matching and [querySelectorAll] *)

(** [.c]: in quirks mode class names compare ASCII case-insensitively. *)
Definition has_class (n : node) (c : string) : bool :=
  if quirks
  then existsb (eq_ignoring_case c) (classList n)
  else contains (classList n) c.

Definition matches_simple (n : node) (s : simple_selector) : bool :=
  match s with
  | SClass c => has_class n c
  | SAttrHas a =>
      match getAttribute a n with Some _ => true | None => false end
  | SAttr a OpEquals v =>
      match getAttribute a n with
      | Some w => value_equals a w v
      | None => false
      end
  | SAttr a OpContains v =>
      (* with the empty value the selector selects nothing *)
      match getAttribute a n with
      | Some w => truthy v && value_includes a w v
      | None => false
      end
  end.

Definition matches_type (n : node) (t : option string) : bool :=
  match t with
  | None => true
  | Some name => String.eqb (ascii_upper name) (tagName n)
  end.

Definition matches_compound (c : compound) (n : node) : bool :=
  matches_type n (sel_type c) && forallb (matches_simple n) (sel_simple c).

Definition select (c : compound) (base : ref) (l : list (ref * node)) : list ref :=
  (λ x, base ++ x.1) <$> filter (λ x, matches_compound c x.2 = true) l.

(** What [querySelectorAll] answers among the candidates [l]: the elements
    selected, a [SyntaxError] for a text that is no selector, and
    [OutOfFragment] for a selector that the fragment does not cover. *)
Definition query (sel : string) (base : ref) (l : list (ref * node)) :
    completion (list ref) :=
  match parse_selector sel with
  | Parsed c => Normal (select c base l)
  | Invalid => Throw SyntaxError
  | Outside => OutOfFragment
  end.

(** [document.querySelectorAll(sel)]: the elements of the document that
    match, in tree order. *)
Definition document_querySelectorAll (sel : string) : M (list ref) :=
  λ d, (d, query sel [] (elements_of d)).

(** [node.querySelectorAll(sel)] on the element behind [p]: its
    descendants that match, itself excluded. *)
Definition node_querySelectorAll (p : ref) (sel : string) : M (list ref) :=
  λ d, match lookup_node p d with
       | Some (Element e cs) => (d, query sel p (descendants (Element e cs)))
       | _ => (d, Throw TypeError)
       end.

(** ** The script ([content.js]) *)

(** [element.style.display = 'none']; only an element has a [style]. *)
Definition hideElement (element : ref) : M unit :=
  λ d, match lookup_node element d with
       | Some (Element _ _) => (set_display "none" element d, Normal tt)
       | _ => (d, Throw TypeError)
       end.

Definition hideByClass (className : string) : M unit :=
  let* elements := document_querySelectorAll ("." +:+ className) in
  forEach elements hideElement.

Definition hideByHref (keyword : string) : M unit :=
  let* links := document_querySelectorAll ("a[href*=" +:+ q +:+ keyword +:+ q +:+ "]") in
  forEach links hideElement.

(** [el.textContent && el.textContent.toLowerCase().includes(keyword.toLowerCase())] *)
Definition text_test (keyword : string) (n : node) : bool :=
  truthy (textContent n)
  && includes (toLowerCase (textContent n)) (toLowerCase keyword).

(** [el.title && el.title.toLowerCase().includes(keyword.toLowerCase())] *)
Definition title_test (keyword : string) (n : node) : bool :=
  truthy (title n)
  && includes (toLowerCase (title n)) (toLowerCase keyword).

Definition hideByContent (selector keyword : string) : M unit :=
  let* elements := document_querySelectorAll selector in
  forEach elements (λ el,
    let* b := read (text_test keyword) el in
    when b (hideElement el)).

Definition hideByTitle (selector keyword : string) : M unit :=
  let* elements := document_querySelectorAll selector in
  forEach elements (λ el,
    let* b := read (title_test keyword) el in
    when b (hideElement el)).

Definition hideByAttribute (attr value : string) : M unit :=
  let* elements := document_querySelectorAll ("[" +:+ attr +:+ "=" +:+ q +:+ value +:+ q +:+ "]") in
  forEach elements hideElement.

Definition applyHideRule (rule : rule) : M unit :=
  if String.eqb (type rule) "class" then hideByClass (value rule)
  else if String.eqb (type rule) "href" then hideByHref (value rule)
  else if String.eqb (type rule) "content"
  then hideByContent (selector rule) (value rule)
  else if String.eqb (type rule) "title"
  then hideByTitle (selector rule) (value rule)
  else if String.eqb (type rule) "attribute"
  then hideByAttribute (attr rule) (value rule)
  else ret tt.

(** The truth value of what [matchesRule(node, rule)] returns. *)
Definition matchesRule (node : node) (rule : rule) : bool :=
  if String.eqb (type rule) "class"
  then contains (classList node) (value rule)
  else if String.eqb (type rule) "href"
  then String.eqb (tagName node) "A" && includes (node_href node) (value rule)
  else if String.eqb (type rule) "content"
  then String.eqb (toUpperCase (tagName node)) (toUpperCase (selector rule))
       && text_test (value rule) node
  else if String.eqb (type rule) "title"
  then String.eqb (toUpperCase (tagName node)) (toUpperCase (selector rule))
       && title_test (value rule) node
  else if String.eqb (type rule) "attribute"
  then match getAttribute (attr rule) node with
       | Some v => String.eqb v (value rule)
       | None => false
       end
  else false.

Section Script.

(** [/* global hideRules */] *)
Variable hideRules : list rule.

Definition shouldHideNode (node : node) : bool :=
  existsb (λ rule, matchesRule node rule) hideRules.

(** The callback of [hideRules.forEach] in [hideElementsInNode]: the
    descendants of [node] that [rule] selects are hidden. *)
Definition hideDescendants (node : ref) (rule : rule) : M unit :=
  if String.eqb (type rule) "class" then
    let* descendants := node_querySelectorAll node ("." +:+ value rule) in
    forEach descendants hideElement
  else if String.eqb (type rule) "href" then
    let* linkDescendants :=
      node_querySelectorAll node ("a[href*=" +:+ q +:+ value rule +:+ q +:+ "]") in
    forEach linkDescendants hideElement
  else if String.eqb (type rule) "content" then
    let* contentDescendants := node_querySelectorAll node (selector rule) in
    forEach contentDescendants (λ desc,
      let* b := read (text_test (value rule)) desc in
      when b (hideElement desc))
  else if String.eqb (type rule) "title" then
    let* titleDescendants := node_querySelectorAll node (selector rule) in
    forEach titleDescendants (λ desc,
      let* b := read (title_test (value rule)) desc in
      when b (hideElement desc))
  else if String.eqb (type rule) "attribute" then
    let* attrDescendants :=
      node_querySelectorAll node
        ("[" +:+ attr rule +:+ "=" +:+ q +:+ value rule +:+ q +:+ "]") in
    forEach attrDescendants hideElement
  else ret tt.

Definition hideElementsInNode (node : ref) : M unit :=
  (let* b := read shouldHideNode node in
   when b (hideElement node)) >>
  (* Descendants *)
  forEach hideRules (hideDescendants node).

Definition hideAllElements : M unit :=
  forEach hideRules applyHideRule.

(** The callback of [mutation.addedNodes.forEach]. *)
Definition onAddedNode (node : ref) : M unit :=
  let* t := read nodeType node in
  when (t =? ELEMENT_NODE) (hideElementsInNode node).

(** The callback of [mutations.forEach]. *)
Definition onMutation (mutation : mutation) : M unit :=
  when (String.eqb (mutation_type mutation) "childList")
    (forEach (addedNodes mutation) onAddedNode).

(** The callback handed to [MutationObserver]. *)
Definition observer (mutations : list mutation) : M unit :=
  forEach mutations onMutation.

End Script.

(** ** Notions used to state the properties *)

(** [drop_prefix q p]: the rest of [p] after [q], when [p] runs through [q]. *)
Fixpoint drop_prefix (q p : ref) : option ref :=
  match q, p with
  | [], _ => Some p
  | j :: q', i :: p' => if decide (i = j) then drop_prefix q' p' else None
  | _ :: _, [] => None
  end.

(** What selectors and the tests of the rules can see of a node:
    everything but the inline style and the shape of the subtree. *)
Definition view (n : node) : option element * string :=
  (match n with
   | Element e _ => Some (with_display EmptyString e)
   | _ => None
   end, textContent n).

Definition views (l : list (ref * node)) : list (ref * (option element * string)) :=
  (λ x, (x.1, view x.2)) <$> l.

Definition is_element (n : node) : bool :=
  match n with Element _ _ => true | _ => false end.

(** The node behind a reference is hidden. *)
Definition hidden_at (p : ref) (d : document) : bool :=
  match lookup_node p d with
  | Some n => hidden n
  | None => false
  end.

Definition element_at (p : ref) (d : document) : bool :=
  match lookup_node p d with
  | Some n => is_element n
  | None => false
  end.

(** The document after hiding the elements of a list one after the other. *)
Definition hide_all (l : list ref) (d : document) : document :=
  foldl (λ d p, set_display "none" p d) d l.

(** The elements of a list that a compound selector and a test select,
    as references from [base]. *)
Definition targets (c : compound) (test : node → bool) (base : ref)
    (l : list (ref * node)) : list ref :=
  (λ x, base ++ x.1) <$> filter (λ x, matches_compound c x.2 && test x.2 = true) l.

(** A test that only depends on what is visible of a node. *)
Definition view_based (test : node → bool) : Prop :=
  ∀ n n', view n = view n' → test n = test n'.

Definition test_at (test : node → bool) (p : ref) (d : document) : bool :=
  match lookup_node p d with
  | Some n => test n
  | None => false
  end.

(** *** Runs that only hide

    Every run of the script amounts to hiding a list of elements and ending
    in some way, both determined by what is visible of the document. *)

Definition effect : Type := document → list ref * completion unit.

Definition runs (m : M unit) (s : effect) : Prop :=
  ∀ d, m d = (hide_all (s d).1 d, (s d).2).

Definition stable (s : effect) : Prop :=
  ∀ v p d, s (set_display v p d) = s d.

Definition skip : effect := λ _, ([], Normal tt).

Definition then_ (s1 s2 : effect) : effect :=
  λ d, match (s1 d).2 with
       | Normal _ => ((s1 d).1 ++ (s2 d).1, (s2 d).2)
       | _ => s1 d
       end.

Definition in_turn (l : list effect) : effect := foldr then_ skip l.

(** The query a rule stands for and the test on each element selected. *)
Definition rule_query (r : rule) : option (string * (node → bool)) :=
  if String.eqb (type r) "class" then Some ("." +:+ value r, λ _, true)
  else if String.eqb (type r) "href"
  then Some ("a[href*=" +:+ q +:+ value r +:+ q +:+ "]", λ _, true)
  else if String.eqb (type r) "content"
  then Some (selector r, text_test (value r))
  else if String.eqb (type r) "title"
  then Some (selector r, title_test (value r))
  else if String.eqb (type r) "attribute"
  then Some ("[" +:+ attr r +:+ "=" +:+ q +:+ value r +:+ q +:+ "]", λ _, true)
  else None.

Definition query_effect (sel : string) (test : node → bool) (base : ref)
    (l : list (ref * node)) : list ref * completion unit :=
  match parse_selector sel with
  | Parsed c => (targets c test base l, Normal tt)
  | Invalid => ([], Throw SyntaxError)
  | Outside => ([], OutOfFragment)
  end.

(** What applying a rule to the whole document does. *)
Definition rule_effect (r : rule) : effect :=
  λ d, match rule_query r with
       | Some (sel, test) => query_effect sel test [] (elements_of d)
       | None => ([], Normal tt)
       end.

(** What the descendant step of a rule does below the element at [p]. *)
Definition descendant_effect (p : ref) (r : rule) : effect :=
  λ d, match rule_query r with
       | Some (sel, test) =>
           match lookup_node p d with
           | Some (Element e cs) =>
               query_effect sel test p (descendants (Element e cs))
           | _ => ([], Throw TypeError)
           end
       | None => ([], Normal tt)
       end.

Definition hide_effect (p : ref) : effect :=
  λ d, if element_at p d then ([p], Normal tt) else ([], Throw TypeError).

Definition self_effect (rules : list rule) (p : ref) : effect :=
  λ d, match lookup_node p d with
       | Some n => (if shouldHideNode rules n then hide_effect p else skip) d
       | None => ([], Throw TypeError)
       end.

Definition node_effect (rules : list rule) (p : ref) : effect :=
  then_ (self_effect rules p) (in_turn (descendant_effect p <$> rules)).

Definition added_effect (rules : list rule) (p : ref) : effect :=
  λ d, match lookup_node p d with
       | Some n => (if is_element n then node_effect rules p else skip) d
       | None => ([], Throw TypeError)
       end.

Definition mutation_effect (rules : list rule) (m : mutation) : effect :=
  if String.eqb (mutation_type m) "childList"
  then in_turn (added_effect rules <$> addedNodes m)
  else skip.

(** The list of a query agrees with the document: each entry is the element
    behind its reference. *)
Definition consistent (base : ref) (l : list (ref * node)) (d : document) : Prop :=
  ∀ x, x ∈ l → lookup_node (base ++ x.1) d = Some x.2 ∧ is_element x.2 = true.

(** *** Rules *)

Definition known_type (r : rule) : bool :=
  String.eqb (type r) "class" || String.eqb (type r) "href"
  || String.eqb (type r) "content" || String.eqb (type r) "title"
  || String.eqb (type r) "attribute".

(** A value that can stand between double quotes as it is. *)
Definition is_plain_string (s : string) : bool :=
  all_chars Chars.is_string_char s.

(** A tag name: an identifier made of ASCII characters. *)
Definition is_tag_name (s : string) : bool := is_ident s && is_ascii s.

(** A well-formed rule: a class rule whose value is an identifier, a href
    rule whose value is not empty and can stand between quotes, a content
    or title rule whose selector is a tag name, an attribute rule whose
    attribute name is an identifier other than [style] and whose value can
    stand between quotes. *)
Definition well_formed (r : rule) : bool :=
  if String.eqb (type r) "class" then is_ident (value r)
  else if String.eqb (type r) "href"
  then truthy (value r) && is_plain_string (value r)
  else if String.eqb (type r) "content" then is_tag_name (selector r)
  else if String.eqb (type r) "title" then is_tag_name (selector r)
  else if String.eqb (type r) "attribute"
  then is_ident (attr r) && negb (String.eqb (ascii_lower (attr r)) "style")
       && is_plain_string (value r)
  else false.

(** The selector text of the query of a rule: [None] for a rule that
    makes no query (unknown type). *)
Definition rule_selector (r : rule) : option string :=
  if String.eqb (type r) "class" then Some ("." +:+ value r)
  else if String.eqb (type r) "href"
  then Some ("a[href*=" +:+ q +:+ value r +:+ q +:+ "]")
  else if String.eqb (type r) "content" then Some (selector r)
  else if String.eqb (type r) "title" then Some (selector r)
  else if String.eqb (type r) "attribute"
  then Some ("[" +:+ attr r +:+ "=" +:+ q +:+ value r +:+ q +:+ "]")
  else None.

(** How the query of a rule is received. *)
Definition rule_parse (r : rule) : option parse_result :=
  match rule_selector r with
  | Some sel => Some (parse_selector sel)
  | None => None
  end.

(** The query of the rule is a selector of the fragment, or the rule makes
    no query at all. *)
Definition accepted (r : rule) : bool :=
  match rule_parse r with
  | Some (Parsed _) | None => true
  | Some _ => false
  end.

(** The query of the rule is rejected with a [SyntaxError]. *)
Definition rejected (r : rule) : bool :=
  match rule_parse r with
  | Some Invalid => true
  | _ => false
  end.

(** The query of the rule is a compound selector of the fragment that
    does not name the [style] attribute, or the rule makes no query. *)
Definition settled (r : rule) : bool :=
  match rule_parse r with
  | Some (Parsed c) => avoids_style c
  | None => true
  | Some _ => false
  end.

(** The element behind a reference, without its children. *)
Definition element_data_at (p : ref) (d : document) : option element :=
  match lookup_node p d with
  | Some (Element e _) => Some e
  | _ => None
  end.

(** Two effects that hide the same elements, in some order, and end alike. *)
Definition same_effect (d : document) (s s' : effect) : Prop :=
  (s d).1 ≡ₚ (s' d).1 ∧ (s d).2 = (s' d).2.

(** The selector that the query of a well-formed rule denotes, and the
    test that goes with it. *)
Definition rule_compound (r : rule) : compound :=
  if String.eqb (type r) "class" then Compound None [SClass (value r)]
  else if String.eqb (type r) "href"
  then Compound (Some "a") [SAttr "href" OpContains (value r)]
  else if String.eqb (type r) "content" then Compound (Some (selector r)) []
  else if String.eqb (type r) "title" then Compound (Some (selector r)) []
  else Compound None [SAttr (attr r) OpEquals (value r)].

Definition rule_test (r : rule) : node → bool :=
  if String.eqb (type r) "class" then λ _, true
  else if String.eqb (type r) "href" then λ _, true
  else if String.eqb (type r) "content" then text_test (value r)
  else if String.eqb (type r) "title" then title_test (value r)
  else λ _, true.

(** The query of the rule compares as the self-check does: a class rule
    outside quirks mode, an attribute rule whose attribute is not one of
    those compared case-insensitively. *)
Definition exact_query (r : rule) : bool :=
  if String.eqb (type r) "class" then negb quirks
  else if String.eqb (type r) "attribute" then negb (case_insensitive (attr r))
  else true.


(** An anchor whose [href] attribute contains the keyword. *)
Definition href_attribute_includes (keyword : string) (n : node) : bool :=
  String.eqb (tagName n) "A" &&
  match getAttribute "href" n with
  | Some w => includes w keyword
  | None => false
  end.

(** [q] lies strictly below [p]. *)
Definition strictly_below (p q : ref) : bool :=
  match drop_prefix p q with
  | Some (_ :: _) => true
  | _ => false
  end.

(** ** The start of the script and the events that follow

    The last lines of [content.js]: the sweep is run at once, or left to
    the [DOMContentLoaded] event when the document is still loading; then
    the observer is installed on [document.body]. *)

Section Start.

Variable hideRules : list rule.

(** [new MutationObserver(...)] and [observer.observe(document.body, ...)]:
    [body] is [document.body], [None] while the document has no body yet
    ([observe(null)] throws a [TypeError]). *)
Definition install (body : option ref) (pg : page) : page * completion unit :=
  match body with
  | Some b =>
      if element_at b (dom pg)
      then (Page (dom pg) (loadListener pg) true, Normal tt)
      else (pg, Throw TypeError)
  | None => (pg, Throw TypeError)
  end.

(** The body of the script from [// Hide on load] on, for the value of
    [document.readyState] and of [document.body] at that time. A throw in
    the sweep ends the script before the observer is created. *)
Definition start (readyState : string) (body : option ref) (d : document) :
    page * completion unit :=
  if String.eqb readyState "loading"
  then install body (Page d true false)
  else match hideAllElements hideRules d with
       | (d', Normal _) => install body (Page d' false false)
       | (d', Throw e) => (Page d' false false, Throw e)
       | (d', OutOfFragment) => (Page d' false false, OutOfFragment)
       end.

(** The host runs the listener or the callback that is registered; what
    they throw is reported by the host and goes no further. *)
Definition deliver (ev : event) (pg : page) : page :=
  match ev with
  | DOMContentLoaded =>
      if loadListener pg
      then Page (hideAllElements hideRules (dom pg)).1 (loadListener pg) (observing pg)
      else pg
  | Mutations batch =>
      if observing pg
      then Page (observer hideRules batch (dom pg)).1 (loadListener pg) (observing pg)
      else pg
  end.

End Start.

(** *** Notions for the further properties *)

(** The [display] of the inline style of the node behind a reference. *)
Definition display_at (p : ref) (d : document) : option string :=
  display <$> lookup_node p d.

(** A well-formed class, content or title rule. *)
Definition plain_rule (r : rule) : bool :=
  well_formed r
  && (String.eqb (type r) "class" || String.eqb (type r) "content"
      || String.eqb (type r) "title").

(** [d'] is [d] with some more elements hidden: every node keeps its
    kind, name, attributes, resolved link and text, and its [display] is
    what it was or has become ["none"]. *)
Definition only_hides (d d' : document) : Prop :=
  ∀ q, view <$> lookup_node q d' = view <$> lookup_node q d
       ∧ (display_at q d' = display_at q d ∨ display_at q d' = Some "none").

(** The added nodes of a batch are nodes of the document. *)
Definition batch_in (ms : list mutation) (d : document) : Prop :=
  Forall (λ m, Forall (λ p, is_Some (lookup_node p d)) (addedNodes m)) ms.

(** [q] is [p] or lies below it. *)
Definition within (p q : ref) : bool :=
  match drop_prefix p q with Some _ => true | None => false end.

(** [q] is, or lies below, an added node of a [childList] record. *)
Definition within_batch (ms : list mutation) (q : ref) : bool :=
  existsb (λ m, String.eqb (mutation_type m) "childList"
                && existsb (λ p, within p q) (addedNodes m)) ms.


(** * Properties *)

(** ** Strings *)

Lemma upper_idem c : Chars.upper (Chars.upper c) = Chars.upper c.
Proof. by destruct c as [[] [] [] [] [] [] [] []]. Qed.

Lemma ascii_upper_idem s : ascii_upper (ascii_upper s) = ascii_upper s.
Proof. induction s as [|c s IH]; simpl; [done|]. by rewrite upper_idem, IH. Qed.

Lemma append_cons c (a b : string) : String c a +:+ b = String c (a +:+ b).
Proof. done. Qed.

Lemma append_assoc (a b c : string) : (a +:+ b) +:+ c = a +:+ (b +:+ c).
Proof. induction a as [|x a IH]; [done|]. by rewrite !append_cons, IH. Qed.

Lemma append_nil_r (a : string) : a +:+ EmptyString = a.
Proof. induction a as [|x a IH]; [done|]. by rewrite append_cons, IH. Qed.

Lemma snoc_append acc c s : snoc acc c +:+ s = acc +:+ String c s.
Proof. unfold snoc. by rewrite append_assoc. Qed.

Lemma all_chars_cons f c s :
  all_chars f (String c s) = f c && all_chars f s.
Proof. done. Qed.

Lemma includes_empty s : includes s EmptyString = true.
Proof. by destruct s. Qed.

Lemma truthy_false s : truthy s = false ↔ s = EmptyString.
Proof. by destruct s. Qed.

(** ** The selector parser on the texts the script builds *)

Lemma parse_ident_run r ty ss v : ∀ acc rest,
  all_chars Chars.is_name_char v = true →
  parse_from (PConfig (PIdent r acc) ty ss) (v +:+ rest)
  = parse_from (PConfig (PIdent r (acc +:+ v)) ty ss) rest.
Proof.
  induction v as [|c v IH]; intros acc rest Hv.
  - by rewrite append_nil_r.
  - rewrite all_chars_cons in Hv. apply andb_true_iff in Hv as [Hc Hv].
    rewrite append_cons. simpl. unfold step; simpl. rewrite Hc.
    rewrite IH by done. by rewrite snoc_append.
Qed.

Lemma parse_string_run name op ty ss v : ∀ acc rest,
  all_chars Chars.is_string_char v = true →
  parse_from (PConfig (PString name op acc) ty ss) (v +:+ rest)
  = parse_from (PConfig (PString name op (acc +:+ v)) ty ss) rest.
Proof.
  induction v as [|c v IH]; intros acc rest Hv.
  - by rewrite append_nil_r.
  - rewrite all_chars_cons in Hv. apply andb_true_iff in Hv as [Hc Hv].
    rewrite append_cons. simpl. unfold step; simpl.
    assert (Chars.eqb c Chars.dquote = false) as ->.
    { unfold Chars.is_string_char in Hc.
      destruct (Chars.eqb c Chars.dquote); [done|done]. }
    rewrite Hc, IH by done. by rewrite snoc_append.
Qed.

(** An identifier read from the position where one may start. *)
Lemma parse_ident_start r ty ss v rest :
  is_ident v = true →
  parse_from (PConfig (PIdentStart r) ty ss) (v +:+ rest)
  = parse_from (PConfig (PIdent r v) ty ss) rest.
Proof.
  destruct v as [|c v]; [done|]. simpl.
  unfold step; simpl. destruct (Chars.is_name_start c) eqn:Hc.
  - intros Hv. by rewrite parse_ident_run.
  - destruct (Chars.eqb c Chars.dash) eqn:Hd; [|done].
    apply Ascii.eqb_eq in Hd as ->.
    destruct v as [|d v]; [done|]. intros [Hd Hv]%andb_true_iff.
    simpl. unfold step; simpl. rewrite Hd. by rewrite parse_ident_run.
Qed.

Lemma ident_not_star c s : is_ident (String c s) = true → Chars.eqb c Chars.star = false.
Proof.
  simpl. destruct (Chars.eqb c Chars.star) eqn:E; [|done].
  apply Ascii.eqb_eq in E as ->. done.
Qed.

Lemma parse_type_ident v rest :
  is_ident v = true →
  parse_from (PConfig PStart None []) (v +:+ rest)
  = parse_from (PConfig (PIdent RType v) None []) rest.
Proof.
  destruct v as [|c v]; [done|]. intros Hv.
  pose proof (ident_not_star _ _ Hv) as Hstar.
  simpl in *. unfold step; simpl. rewrite Hstar.
  destruct (Chars.eqb c Chars.dash) eqn:Hd.
  - apply Ascii.eqb_eq in Hd as ->. simpl in Hv.
    destruct v as [|d v]; [done|]. apply andb_true_iff in Hv as [Hd Hv].
    simpl. unfold step; simpl. rewrite Hd. by rewrite parse_ident_run.
  - destruct (Chars.is_name_start c); [|done]. by rewrite parse_ident_run.
Qed.

Lemma parse_class_selector v :
  is_ident v = true →
  parse_selector ("." +:+ v) = Parsed (Compound None [SClass v]).
Proof.
  intros Hv. unfold parse_selector. simpl.
  change (parse_from (PConfig (PIdentStart RClass) None []) v = Parsed (Compound None [SClass v])).
  rewrite <-(append_nil_r v) at 1. by rewrite parse_ident_start.
Qed.

Lemma parse_type_selector v :
  is_ident v = true →
  parse_selector v = Parsed (Compound (Some v) []).
Proof.
  intros Hv. unfold parse_selector.
  rewrite <-(append_nil_r v) at 1. by rewrite parse_type_ident.
Qed.

Lemma parse_href_selector v :
  all_chars Chars.is_string_char v = true →
  parse_selector ("a[href*=" +:+ q +:+ v +:+ q +:+ "]")
  = Parsed (Compound (Some "a") [SAttr "href" OpContains v]).
Proof.
  intros Hv. unfold parse_selector. simpl.
  change (parse_from (PConfig (PString "href" OpContains EmptyString) (Some "a") [])
            (v +:+ q +:+ "]") = Parsed (Compound (Some "a") [SAttr "href" OpContains v])).
  by rewrite parse_string_run.
Qed.

Lemma parse_attribute_selector a v :
  is_ident a = true →
  all_chars Chars.is_string_char v = true →
  parse_selector ("[" +:+ a +:+ "=" +:+ q +:+ v +:+ q +:+ "]")
  = Parsed (Compound None [SAttr a OpEquals v]).
Proof.
  intros Ha Hv. unfold parse_selector. simpl.
  change (parse_from (PConfig (PIdentStart RAttr) None [])
            (a +:+ "=" +:+ q +:+ v +:+ q +:+ "]") = Parsed (Compound None [SAttr a OpEquals v])).
  rewrite parse_ident_start by done. simpl.
  change (parse_from (PConfig (PString a OpEquals EmptyString) None [])
            (v +:+ q +:+ "]") = Parsed (Compound None [SAttr a OpEquals v])).
  by rewrite parse_string_run.
Qed.


(** ** The document tree under [set_display] *)

Lemma text_of_children_insert f cs : ∀ i c c',
  cs !! i = Some c → f c' = f c →
  text_of_children f (<[i:=c']> cs) = text_of_children f cs.
Proof.
  induction cs as [|x cs IH]; intros [|i] c c' Hi Hf; simplify_eq/=; try done.
  - by rewrite Hf.
  - by erewrite IH.
Qed.

Lemma text_under_set_display v p : ∀ n,
  text_under (set_display v p n) = text_under n.
Proof.
  induction p as [|i p IH]; intros [e cs| |]; simpl; try done.
  destruct (cs !! i) as [c|] eqn:Hi; simpl; [|done].
  by eapply text_of_children_insert.
Qed.

Lemma set_display_element v p n :
  is_element (set_display v p n) = is_element n.
Proof.
  destruct n as [e cs| |], p as [|i p]; simpl; try done.
  by destruct (cs !! i).
Qed.

Lemma view_set_display v p n : view (set_display v p n) = view n.
Proof.
  destruct n as [e cs| |], p as [|i p]; simpl; try done.
  destruct (cs !! i) as [c|] eqn:Hi; [|done].
  unfold view; simpl. f_equal.
  eapply text_of_children_insert; [done|]. apply text_under_set_display.
Qed.

Lemma display_set_display v p n :
  display (set_display v p n)
  = if is_element n && bool_decide (p = []) then v else display n.
Proof.
  destruct n as [e cs| |], p as [|i p]; simpl; try done.
  by destruct (cs !! i).
Qed.

Lemma drop_prefix_nil q p : drop_prefix q p = Some [] ↔ q = p.
Proof.
  revert p. induction q as [|j q IH]; intros [|i p]; simpl.
  - done.
  - split; intros; simplify_eq.
  - split; intros; simplify_eq.
  - case_decide as Hij.
    + subst. rewrite IH. split; intros; by simplify_eq.
    + split; intros; simplify_eq.
Qed.

(** The node behind [q] after a write behind [p]: the old node, with the
    write applied inside it when [p] lies in its subtree. *)
Lemma lookup_set_display v q : ∀ p d,
  lookup_node q (set_display v p d)
  = (λ n, match drop_prefix q p with
          | Some r => set_display v r n
          | None => n
          end) <$> lookup_node q d.
Proof.
  induction q as [|j q IH]; intros p d; [done|].
  destruct d as [e cs| |]; [|by destruct p..].
  destruct p as [|i p]; simpl.
  { by destruct (cs !! j) as [c|]; [destruct (lookup_node q c)|]. }
  destruct (cs !! i) as [c|] eqn:Hi; simpl.
  - case_decide as Hij.
    + subst j. rewrite list_lookup_insert_eq by (by eapply lookup_lt_Some).
      rewrite Hi. apply IH.
    + rewrite list_lookup_insert_ne by done.
      by destruct (cs !! j) as [c'|]; [destruct (lookup_node q c')|].
  - case_decide as Hij.
    + subst j. by rewrite Hi.
    + by destruct (cs !! j) as [c'|]; [destruct (lookup_node q c')|].
Qed.

Lemma lookup_view_set_display v p q d :
  view <$> lookup_node q (set_display v p d) = view <$> lookup_node q d.
Proof.
  rewrite lookup_set_display. destruct (lookup_node q d) as [n|]; [|done].
  simpl. f_equal. destruct (drop_prefix q p); [|done]. apply view_set_display.
Qed.

Lemma element_at_set_display v p q d :
  element_at q (set_display v p d) = element_at q d.
Proof.
  unfold element_at. rewrite lookup_set_display.
  destruct (lookup_node q d) as [n|]; [|done]. simpl.
  destruct (drop_prefix q p); [|done]. apply set_display_element.
Qed.

Lemma hidden_at_set_display p q d :
  hidden_at q (set_display "none" p d)
  = (bool_decide (q = p) && element_at p d) || hidden_at q d.
Proof.
  unfold hidden_at, element_at. rewrite lookup_set_display.
  case_bool_decide as Hqp.
  - subst q. destruct (lookup_node p d) as [n|]; [|done]. simpl.
    assert (drop_prefix p p = Some []) as -> by by apply drop_prefix_nil.
    unfold hidden. rewrite display_set_display. simpl.
    by destruct (is_element n).
  - destruct (lookup_node q d) as [n|]; [|done]. simpl.
    destruct (drop_prefix q p) as [r|] eqn:Hr; [|done].
    unfold hidden. rewrite display_set_display.
    case_bool_decide as Hnil; [|by rewrite andb_false_r].
    subst r. by apply drop_prefix_nil in Hr.
Qed.

(** Writes to the inline style commute and repeat without effect. *)
Lemma set_display_idem v p : ∀ d,
  set_display v p (set_display v p d) = set_display v p d.
Proof.
  induction p as [|i p IH]; intros [e cs| |]; simpl; try done.
  destruct (cs !! i) as [c|] eqn:Hi; simpl; [|by rewrite Hi].
  rewrite list_lookup_insert_eq by (by eapply lookup_lt_Some).
  by rewrite list_insert_insert_eq, IH.
Qed.

Lemma set_display_comm v p : ∀ q d,
  set_display v p (set_display v q d) = set_display v q (set_display v p d).
Proof.
  induction p as [|i p IH]; intros [|j q] [e cs| |]; simpl; try done.
  - by destruct (cs !! j).
  - by destruct (cs !! i).
  - destruct (cs !! j) as [cj|] eqn:Hj, (cs !! i) as [ci|] eqn:Hi; simpl;
      rewrite ?Hi, ?Hj; try done.
    + destruct (decide (i = j)) as [->|Hij].
      * simplify_eq. rewrite !list_lookup_insert_eq by (by eapply lookup_lt_Some).
        by rewrite !list_insert_insert_eq, IH.
      * rewrite !list_lookup_insert_ne, Hi, Hj by done.
        by rewrite list_insert_insert_ne.
    + destruct (decide (i = j)) as [->|Hij]; [congruence|].
      by rewrite list_lookup_insert_ne, Hi by done.
    + destruct (decide (i = j)) as [->|Hij]; [congruence|].
      by rewrite list_lookup_insert_ne, Hj by done.
Qed.


(** ** The elements of a subtree *)

Lemma elem_of_flat_children f cs p n : ∀ k,
  (p, n) ∈ flat_children f k cs
  ↔ ∃ i c p', p = (k + i) :: p' ∧ cs !! i = Some c ∧ (p', n) ∈ f c.
Proof.
  induction cs as [|c cs IH]; intros k; simpl.
  - split; [by intros ?%elem_of_nil|]. by intros (i & c & p' & _ & ? & _).
  - rewrite elem_of_app, IH, list_elem_of_fmap. split.
    + intros [([p' n'] & Heq & Hin)|(i & c' & p' & -> & Hi & Hin)].
      * unfold below in Heq; simplify_eq/=. exists 0, c, p'.
        by rewrite Nat.add_0_r.
      * exists (S i), c', p'. split_and!; [f_equal; lia|done..].
    + intros ([|i] & c' & p' & -> & Hi & Hin); simplify_eq/=.
      * left. exists (p', n). by rewrite Nat.add_0_r.
      * right. exists i, c', p'. split_and!; [f_equal; lia|done..].
Qed.

(** The list holds the elements of the subtree, each under its reference. *)
Lemma elem_of_elements_of p : ∀ d n,
  (p, n) ∈ elements_of d ↔ lookup_node p d = Some n ∧ is_element n = true.
Proof.
  induction p as [|i p IH]; intros d n.
  - destruct d as [e cs| |]; simpl.
    + rewrite elem_of_cons, elem_of_flat_children. split.
      * intros [Heq|(i & c & p' & ? & _)]; [|done]. by simplify_eq.
      * intros [Heq _]. left. by simplify_eq.
    + split; [by intros ?%elem_of_nil|]. intros [Heq ?]. by simplify_eq.
    + split; [by intros ?%elem_of_nil|]. intros [Heq ?]. by simplify_eq.
  - destruct d as [e cs| |]; simpl.
    + rewrite elem_of_cons, elem_of_flat_children. split.
      * intros [?|(i' & c & p' & Heq & Hi & Hin)]; [done|].
        simplify_eq/=. rewrite Hi. by apply IH.
      * destruct (cs !! i) as [c|] eqn:Hi; [|by intros [? ?]].
        intros H. right. exists i, c, p. split_and!; [done..|by apply IH].
    + split; [by intros ?%elem_of_nil|by intros [? ?]].
    + split; [by intros ?%elem_of_nil|by intros [? ?]].
Qed.

Lemma elements_of_lookup d p n :
  (p, n) ∈ elements_of d → lookup_node p d = Some n.
Proof. by intros [? ?]%elem_of_elements_of. Qed.

Lemma lookup_node_app p : ∀ q d,
  lookup_node (p ++ q) d = lookup_node p d ≫= lookup_node q.
Proof.
  induction p as [|i p IH]; intros q d; [done|].
  destruct d as [e cs| |]; simpl; [|done..].
  destruct (cs !! i); [apply IH|done].
Qed.

Lemma descendants_lookup p q d n m :
  lookup_node p d = Some n → (q, m) ∈ descendants n →
  lookup_node (p ++ q) d = Some m ∧ is_element m = true ∧ q ≠ [].
Proof.
  intros Hp Hq. rewrite lookup_node_app, Hp. simpl.
  destruct n as [e cs| |]; simpl in Hq; [|by apply elem_of_nil in Hq..].
  assert ((q, m) ∈ elements_of (Element e cs)) as Hin
    by (simpl; by apply elem_of_cons; right).
  apply elem_of_elements_of in Hin as [? ?]. split_and!; [done..|].
  apply elem_of_flat_children in Hq as (? & ? & ? & -> & _). done.
Qed.

Lemma elem_of_descendants q n m :
  (q, m) ∈ descendants n
  ↔ lookup_node q n = Some m ∧ is_element m = true ∧ q ≠ [].
Proof.
  split.
  - intros H. by apply (descendants_lookup [] q n n m).
  - intros (Hq & Hm & Hne). destruct n as [e cs| |].
    + assert ((q, m) ∈ elements_of (Element e cs)) as Hin
        by by apply elem_of_elements_of.
      simpl in Hin. apply elem_of_cons in Hin as [[= ? ?]|?]; done.
    + by destruct q.
    + by destruct q.
Qed.

(** ** What a query sees does not depend on the inline styles *)

Lemma views_app l1 l2 : views (l1 ++ l2) = views l1 ++ views l2.
Proof. unfold views. by rewrite fmap_app. Qed.

Lemma views_below i l :
  views (below i <$> l) = (λ y, (i :: y.1, y.2)) <$> views l.
Proof. unfold views. rewrite <-!list_fmap_compose. done. Qed.

Lemma views_flat_children_insert f cs : ∀ i k c c',
  cs !! i = Some c → views (f c') = views (f c) →
  views (flat_children f k (<[i:=c']> cs)) = views (flat_children f k cs).
Proof.
  induction cs as [|x cs IH]; intros [|i] k c c' Hi Hf; simplify_eq/=; try done.
  - by rewrite !views_app, !views_below, Hf.
  - rewrite !views_app. f_equal. by eapply IH.
Qed.

Lemma views_elements_set_display v p : ∀ d,
  views (elements_of (set_display v p d)) = views (elements_of d).
Proof.
  induction p as [|i p IH]; intros [e cs| |]; simpl; try done.
  destruct (cs !! i) as [c|] eqn:Hi; simpl; [|done].
  f_equal.
  - f_equal. unfold view; simpl. f_equal.
    eapply text_of_children_insert; [done|]. apply text_under_set_display.
  - by eapply views_flat_children_insert.
Qed.

Lemma views_descendants_set_display v p n :
  views (descendants (set_display v p n)) = views (descendants n).
Proof.
  pose proof (views_elements_set_display v p n) as H.
  destruct n as [e cs| |], p as [|i p]; simpl in *; try done.
  destruct (cs !! i) as [c|] eqn:Hi; simpl in *; [|done].
  by injection H.
Qed.

Lemma view_inv n n' :
  view n = view n' →
  textContent n = textContent n' ∧ tagName n = tagName n'
  ∧ (∀ a, getAttribute a n = getAttribute a n')
  ∧ node_href n = node_href n' ∧ is_element n = is_element n'.
Proof.
  unfold view. intros [= He Ht]. split; [done|].
  destruct n as [[] ?| |], n' as [[] ?| |]; simplify_eq/=; done.
Qed.

Lemma view_classList n n' : view n = view n' → classList n = classList n'.
Proof. intros (_ & _ & Ha & _)%view_inv. unfold classList. by rewrite Ha. Qed.

Lemma view_title n n' : view n = view n' → title n = title n'.
Proof. intros (_ & _ & Ha & _)%view_inv. unfold title. by rewrite Ha. Qed.

Lemma view_matches_simple s : view_based (λ n, matches_simple n s).
Proof.
  intros n n' Hv. pose proof (view_classList _ _ Hv) as Hc.
  apply view_inv in Hv as (_ & _ & Ha & _).
  destruct s as [c|a|a [] v]; simpl; unfold has_class; by rewrite ?Hc, ?Ha.
Qed.

Lemma view_matches_compound c : view_based (matches_compound c).
Proof.
  intros n n' Hv. unfold matches_compound, matches_type. f_equal.
  - apply view_inv in Hv as (_ & -> & _). done.
  - induction (sel_simple c) as [|s ss IH]; simpl; [done|].
    by rewrite (view_matches_simple s n n'), IH.
Qed.

Lemma view_text_test k : view_based (text_test k).
Proof. intros n n' (Ht & _)%view_inv. unfold text_test. by rewrite Ht. Qed.

Lemma view_title_test k : view_based (title_test k).
Proof. intros n n' Ht%view_title. unfold title_test. by rewrite Ht. Qed.

Lemma view_const b : view_based (λ _, b).
Proof. by intros ???. Qed.

Lemma view_matchesRule r : view_based (λ n, matchesRule n r).
Proof.
  intros n n' Hv. unfold matchesRule.
  rewrite (view_classList _ _ Hv), (view_text_test _ _ _ Hv),
    (view_title_test _ _ _ Hv).
  apply view_inv in Hv as (_ & -> & Ha & -> & _). by rewrite Ha.
Qed.

Lemma views_cons_inv p n l p' n' l' :
  views ((p, n) :: l) = views ((p', n') :: l') →
  p = p' ∧ view n = view n' ∧ views l = views l'.
Proof.
  change (views ((p, n) :: l)) with ((p, view n) :: views l).
  change (views ((p', n') :: l')) with ((p', view n') :: views l').
  generalize (view n) (view n') (views l) (views l'). intros. by simplify_eq.
Qed.

Lemma targets_views c test base l : ∀ l',
  view_based test → views l = views l' →
  targets c test base l = targets c test base l'.
Proof.
  unfold targets.
  induction l as [|[p n] l IH]; intros [|[p' n'] l'] Ht Hv; try done.
  apply views_cons_inv in Hv as (-> & Hn & Hl).
  rewrite !filter_cons. simpl.
  rewrite (view_matches_compound c n n'), (Ht n n') by done.
  case_decide; [rewrite !fmap_cons; f_equal|]; by apply IH.
Qed.


(** ** Runs of the script as lists of elements hidden *)

Lemma hide_all_app l1 l2 d : hide_all (l1 ++ l2) d = hide_all l2 (hide_all l1 d).
Proof. apply foldl_app. Qed.

Lemma stable_hide_all {A} (s : document → A) l : ∀ d,
  (∀ v p d, s (set_display v p d) = s d) → s (hide_all l d) = s d.
Proof.
  induction l as [|p l IH]; intros d Hs; [done|].
  simpl. rewrite IH by done. apply Hs.
Qed.

Lemma runs_ret : runs (ret tt) skip.
Proof. done. Qed.

Lemma stable_skip : stable skip.
Proof. done. Qed.

Lemma runs_then m k s1 s2 :
  runs m s1 → runs k s2 → stable s2 → runs (m >> k) (then_ s1 s2).
Proof.
  intros Hm Hk Hs d. unfold bind, then_. rewrite Hm.
  destruct (s1 d) as [t1 [[]| |]]; simpl; [|done..].
  rewrite Hk, hide_all_app. by rewrite (stable_hide_all s2).
Qed.

Lemma stable_then s1 s2 : stable s1 → stable s2 → stable (then_ s1 s2).
Proof. intros H1 H2 v p d. unfold then_. by rewrite H1, H2. Qed.

Lemma stable_in_turn l : Forall stable l → stable (in_turn l).
Proof.
  induction 1 as [|s l Hs Hl IH]; [apply stable_skip|].
  by apply stable_then.
Qed.

Lemma runs_forEach {A} (f : A → M unit) (s : A → effect) l :
  (∀ x, x ∈ l → runs (f x) (s x) ∧ stable (s x)) →
  runs (forEach l f) (in_turn (s <$> l)).
Proof.
  induction l as [|x l IH]; intros H; [apply runs_ret|].
  simpl. apply runs_then.
  - apply H, elem_of_cons; by left.
  - apply IH. intros y Hy. apply H, elem_of_cons; by right.
  - apply stable_in_turn, Forall_fmap, Forall_forall. intros y Hy.
    apply H, elem_of_cons; by right.
Qed.

Lemma runs_ext m s s' : runs m s → (∀ d, s d = s' d) → runs m s'.
Proof. intros H Hs d. by rewrite <-Hs. Qed.

(** *** [hideElement] *)

Lemma hideElement_run p d :
  hideElement p d
  = if element_at p d then (set_display "none" p d, Normal tt)
    else (d, Throw TypeError).
Proof.
  unfold hideElement, element_at.
  by destruct (lookup_node p d) as [[]|].
Qed.

Lemma runs_hideElement p : runs (hideElement p) (hide_effect p).
Proof.
  intros d. rewrite hideElement_run. unfold hide_effect.
  by destruct (element_at p d).
Qed.

Lemma stable_hide_effect p : stable (hide_effect p).
Proof. intros v q d. unfold hide_effect. by rewrite element_at_set_display. Qed.

Lemma test_at_set_display test v p q d :
  view_based test →
  test_at test q (set_display v p d) = test_at test q d.
Proof.
  intros Ht. unfold test_at.
  pose proof (lookup_view_set_display v p q d) as Hv.
  destruct (lookup_node q (set_display v p d)) as [n'|],
    (lookup_node q d) as [n|]; simplify_eq/=; try done.
  apply Ht. unfold view. by f_equal.
Qed.

(** A loop that hides the elements of a list. *)
Lemma forEach_hideElement l : ∀ d,
  Forall (λ p, element_at p d = true) l →
  forEach l hideElement d = (hide_all l d, Normal tt).
Proof.
  induction l as [|p l IH]; intros d Hl; [done|].
  apply Forall_cons in Hl as [Hp Hl].
  simpl. unfold bind. rewrite hideElement_run, Hp. apply IH.
  eapply Forall_impl; [done|]. intros q Hq. by rewrite element_at_set_display.
Qed.

(** A loop that hides the elements of a list that pass a test. *)
Lemma forEach_test_hideElement test l : ∀ d,
  view_based test →
  Forall (λ p, element_at p d = true) l →
  forEach l (λ el, let* b := read test el in when b (hideElement el)) d
  = (hide_all (filter (λ p, test_at test p d = true) l) d, Normal tt).
Proof.
  induction l as [|p l IH]; intros d Ht Hl; [done|].
  apply Forall_cons in Hl as [Hp Hl].
  simpl. unfold bind at 1 2. unfold read, test_at at 1.
  rewrite filter_cons. unfold test_at at 1.
  unfold element_at in Hp.
  destruct (lookup_node p d) as [n|] eqn:Hn; [|done].
  destruct (test n) eqn:Htest; simpl.
  - rewrite hideElement_run. unfold element_at. rewrite Hn, Hp.
    rewrite IH; [|done|].
    + f_equal. f_equal. apply list_filter_iff. intros x.
      by rewrite test_at_set_display.
    + eapply Forall_impl; [done|]. intros x Hx.
      by rewrite element_at_set_display.
  - by apply IH.
Qed.


(** *** Queries followed by a loop *)

Lemma select_targets c base l : select c base l = targets c (λ _, true) base l.
Proof.
  unfold select, targets. f_equal. apply list_filter_iff. intros x.
  by rewrite andb_true_r.
Qed.

Lemma consistent_cons base x l d :
  consistent base (x :: l) d →
  (lookup_node (base ++ x.1) d = Some x.2 ∧ is_element x.2 = true)
  ∧ consistent base l d.
Proof.
  intros H. split; [apply H; by left|]. intros y Hy. apply H. by right.
Qed.

Lemma select_element_at c base l d :
  consistent base l d → Forall (λ p, element_at p d = true) (select c base l).
Proof.
  intros H. unfold select. apply Forall_fmap, Forall_forall.
  intros x [_ Hx]%list_elem_of_filter. simpl. unfold element_at.
  by destruct (H x Hx) as [-> ->].
Qed.

Lemma filter_select test c base l d :
  consistent base l d →
  filter (λ p, test_at test p d = true) (select c base l)
  = targets c test base l.
Proof.
  unfold select, targets.
  induction l as [|x l IH]; intros H; [done|].
  apply consistent_cons in H as [[Hx _] Hl].
  specialize (IH Hl).
  assert (test_at test (base ++ x.1) d = test x.2) as Htest
    by (unfold test_at; by rewrite Hx).
  destruct (matches_compound c x.2) eqn:Hm.
  - rewrite (filter_cons_True (λ x, matches_compound c x.2 = true)) by done.
    rewrite fmap_cons. destruct (test x.2) eqn:Ht.
    + rewrite (filter_cons_True (λ p, test_at test p d = true)) by done.
      rewrite (filter_cons_True (λ x, matches_compound c x.2 && test x.2 = true))
        by (cbv beta; by rewrite Hm, Ht).
      by rewrite fmap_cons, IH.
    + rewrite (filter_cons_False (λ p, test_at test p d = true)) by (cbv beta; by rewrite Htest).
      rewrite (filter_cons_False (λ x, matches_compound c x.2 && test x.2 = true))
        by (cbv beta; by rewrite Hm, Ht).
      done.
  - rewrite (filter_cons_False (λ x, matches_compound c x.2 = true)) by (cbv beta; by rewrite Hm).
    rewrite (filter_cons_False (λ x, matches_compound c x.2 && test x.2 = true))
      by (cbv beta; by rewrite Hm).
    done.
Qed.

Lemma query_hide sel base l d :
  consistent base l d →
  match query sel base l with
  | Normal els => forEach els hideElement d
  | Throw e => (d, Throw e)
  | OutOfFragment => (d, OutOfFragment)
  end
  = (hide_all (query_effect sel (λ _, true) base l).1 d,
     (query_effect sel (λ _, true) base l).2).
Proof.
  intros H. unfold query, query_effect.
  destruct (parse_selector sel) as [c| |]; [|done..].
  rewrite forEach_hideElement by by apply select_element_at.
  by rewrite select_targets.
Qed.

Lemma query_test_hide test sel base l d :
  view_based test → consistent base l d →
  match query sel base l with
  | Normal els =>
      forEach els (λ el, let* b := read test el in when b (hideElement el)) d
  | Throw e => (d, Throw e)
  | OutOfFragment => (d, OutOfFragment)
  end
  = (hide_all (query_effect sel test base l).1 d,
     (query_effect sel test base l).2).
Proof.
  intros Ht H. unfold query, query_effect.
  destruct (parse_selector sel) as [c| |]; [|done..].
  rewrite forEach_test_hideElement by (done || by apply select_element_at).
  by rewrite filter_select.
Qed.

Lemma consistent_elements d : consistent [] (elements_of d) d.
Proof. intros [p n] Hx. by apply elem_of_elements_of. Qed.

Lemma consistent_descendants p d n :
  lookup_node p d = Some n → consistent p (descendants n) d.
Proof.
  intros Hp [r m] Hx. by destruct (descendants_lookup p r d n m) as (? & ? & _).
Qed.

Lemma query_effect_views sel test base l l' :
  view_based test → views l = views l' →
  query_effect sel test base l = query_effect sel test base l'.
Proof.
  intros Ht Hv. unfold query_effect.
  destruct (parse_selector sel); [|done..]. f_equal. by apply targets_views.
Qed.

Lemma rule_query_view_based r sel test :
  rule_query r = Some (sel, test) → view_based test.
Proof.
  unfold rule_query. repeat case_match; intros; simplify_eq;
    auto using view_const, view_text_test, view_title_test.
Qed.

(** *** [applyHideRule] and [hideAllElements] *)

Lemma runs_applyHideRule r : runs (applyHideRule r) (rule_effect r).
Proof.
  intros d. unfold applyHideRule, rule_effect, rule_query.
  unfold hideByClass, hideByHref, hideByContent, hideByTitle, hideByAttribute.
  pose proof (consistent_elements d) as Hc.
  repeat case_match; try done; unfold bind, document_querySelectorAll.
  - by rewrite <-query_hide.
  - by rewrite <-query_hide.
  - rewrite <-query_test_hide by auto using view_text_test. done.
  - rewrite <-query_test_hide by auto using view_title_test. done.
  - by rewrite <-query_hide.
Qed.

Lemma stable_rule_effect r : stable (rule_effect r).
Proof.
  intros v p d. unfold rule_effect.
  destruct (rule_query r) as [[sel test]|] eqn:Hq; [|done].
  apply query_effect_views; [by eapply rule_query_view_based|].
  apply views_elements_set_display.
Qed.

Lemma runs_hideAllElements rules :
  runs (hideAllElements rules) (in_turn (rule_effect <$> rules)).
Proof.
  apply runs_forEach. intros r _.
  split; [apply runs_applyHideRule|apply stable_rule_effect].
Qed.


(** *** [hideElementsInNode] and the observer *)

Lemma runs_hideDescendants p r : runs (hideDescendants p r) (descendant_effect p r).
Proof.
  intros d. unfold hideDescendants, descendant_effect, rule_query.
  destruct (String.eqb (type r) "class");
    [|destruct (String.eqb (type r) "href");
      [|destruct (String.eqb (type r) "content");
        [|destruct (String.eqb (type r) "title");
          [|destruct (String.eqb (type r) "attribute"); [|done]]]]];
    unfold bind, node_querySelectorAll;
    (destruct (lookup_node p d) as [[e cs| |]|] eqn:Hl; [|done..]);
    pose proof (consistent_descendants p d _ Hl) as Hc.
  - by rewrite <-query_hide.
  - by rewrite <-query_hide.
  - by rewrite <-query_test_hide by auto using view_text_test.
  - by rewrite <-query_test_hide by auto using view_title_test.
  - by rewrite <-query_hide.
Qed.

Lemma lookup_set_display_element v p q d e cs :
  lookup_node q (set_display v p d) = Some (Element e cs) →
  ∃ e' cs', lookup_node q d = Some (Element e' cs')
    ∧ views (descendants (Element e cs)) = views (descendants (Element e' cs')).
Proof.
  rewrite lookup_set_display.
  destruct (lookup_node q d) as [n|]; [|done]. simpl. intros [= Hn].
  destruct (drop_prefix q p) as [r|].
  - pose proof (views_descendants_set_display v r n) as Hv.
    pose proof (set_display_element v r n) as He.
    rewrite Hn in Hv, He. destruct n as [e' cs'| |]; [|done..].
    by exists e', cs'.
  - subst n. by exists e, cs.
Qed.

Lemma stable_descendant_effect p r : stable (descendant_effect p r).
Proof.
  intros v q d. unfold descendant_effect.
  destruct (rule_query r) as [[sel test]|] eqn:Hq; [|done].
  destruct (lookup_node p (set_display v q d)) as [[e cs| |]|] eqn:Hl.
  - apply lookup_set_display_element in Hl as (e' & cs' & -> & Hv).
    apply query_effect_views; [by eapply rule_query_view_based|done].
  - rewrite lookup_set_display in Hl.
    destruct (lookup_node p d) as [n|]; [|done]. simpl in Hl.
    injection Hl as Hl. destruct (drop_prefix p q) as [r'|].
    + pose proof (set_display_element v r' n) as He. rewrite Hl in He.
      by destruct n.
    + by subst n.
  - rewrite lookup_set_display in Hl.
    destruct (lookup_node p d) as [n|]; [|done]. simpl in Hl.
    injection Hl as Hl. destruct (drop_prefix p q) as [r'|].
    + pose proof (set_display_element v r' n) as He. rewrite Hl in He.
      by destruct n.
    + by subst n.
  - rewrite lookup_set_display in Hl.
    by destruct (lookup_node p d) as [n|].
Qed.

Lemma shouldHideNode_view rules : view_based (shouldHideNode rules).
Proof.
  intros n n' Hv. unfold shouldHideNode.
  induction rules as [|r rules IH]; [done|]. simpl.
  by rewrite (view_matchesRule r n n'), IH.
Qed.

Lemma runs_self rules p :
  runs (let* b := read (shouldHideNode rules) p in when b (hideElement p))
       (self_effect rules p).
Proof.
  intros d. unfold bind, read, self_effect.
  destruct (lookup_node p d) as [n|]; [|done].
  destruct (shouldHideNode rules n); [apply (runs_hideElement p d)|done].
Qed.

(** A node keeps its kind, and an effect that looks at a node through a
    view-based test keeps its value. *)
Lemma stable_on_node (f : node → effect) (g : effect) p :
  (∀ n n', view n = view n' → ∀ d, f n d = f n' d) →
  (∀ n, stable (f n)) → stable g →
  stable (λ d, match lookup_node p d with Some n => f n d | None => g d end).
Proof.
  intros Hf Hs Hg v q d.
  pose proof (lookup_view_set_display v q p d) as Hv.
  destruct (lookup_node p (set_display v q d)) as [n'|],
    (lookup_node p d) as [n|]; try done.
  rewrite Hs. apply Hf.
  change (Some (view n') = Some (view n)) in Hv. by apply (inj Some) in Hv.
Qed.

Lemma stable_const x : stable (λ _, x).
Proof. done. Qed.

Lemma stable_self_effect rules p : stable (self_effect rules p).
Proof.
  apply (stable_on_node
    (λ n, if shouldHideNode rules n then hide_effect p else skip)
    (λ _, ([], Throw TypeError))).
  - intros n n' Hv d. by rewrite (shouldHideNode_view rules n n').
  - intros n. destruct (shouldHideNode rules n);
      [apply stable_hide_effect|apply stable_skip].
  - apply stable_const.
Qed.

Lemma runs_hideElementsInNode rules p :
  runs (hideElementsInNode rules p) (node_effect rules p).
Proof.
  unfold hideElementsInNode, node_effect. apply runs_then.
  - apply runs_self.
  - apply runs_forEach. intros r _.
    split; [apply runs_hideDescendants|apply stable_descendant_effect].
  - apply stable_in_turn, Forall_fmap, Forall_forall. intros r _.
    apply stable_descendant_effect.
Qed.

Lemma stable_node_effect rules p : stable (node_effect rules p).
Proof.
  apply stable_then; [apply stable_self_effect|].
  apply stable_in_turn, Forall_fmap, Forall_forall. intros r _.
  apply stable_descendant_effect.
Qed.

Lemma runs_onAddedNode rules p :
  runs (onAddedNode rules p) (added_effect rules p).
Proof.
  intros d. unfold onAddedNode, added_effect, bind, read.
  destruct (lookup_node p d) as [[e cs| |]|]; try done.
  apply (runs_hideElementsInNode rules p d).
Qed.

Lemma stable_added_effect rules p : stable (added_effect rules p).
Proof.
  apply (stable_on_node
    (λ n, if is_element n then node_effect rules p else skip)
    (λ _, ([], Throw TypeError))).
  - intros n n' Hv d. apply view_inv in Hv as (_ & _ & _ & _ & ->). done.
  - intros n. destruct (is_element n);
      [apply stable_node_effect|apply stable_skip].
  - apply stable_const.
Qed.

Lemma runs_onMutation rules m :
  runs (onMutation rules m) (mutation_effect rules m).
Proof.
  unfold onMutation, mutation_effect.
  destruct (String.eqb _ _); [|apply runs_ret].
  apply runs_forEach. intros p _.
  split; [apply runs_onAddedNode|apply stable_added_effect].
Qed.

Lemma stable_mutation_effect rules m : stable (mutation_effect rules m).
Proof.
  unfold mutation_effect. destruct (String.eqb _ _); [|apply stable_skip].
  apply stable_in_turn, Forall_fmap, Forall_forall. intros p _.
  apply stable_added_effect.
Qed.

Lemma runs_observer rules ms :
  runs (observer rules ms) (in_turn (mutation_effect rules <$> ms)).
Proof.
  apply runs_forEach. intros m _.
  split; [apply runs_onMutation|apply stable_mutation_effect].
Qed.

(** ** The document after hiding a list of elements *)

Lemma hidden_at_hide_all l : ∀ q d,
  hidden_at q (hide_all l d)
  = hidden_at q d || (bool_decide (q ∈ l) && element_at q d).
Proof.
  induction l as [|p l IH]; intros q d; simpl.
  - by rewrite orb_false_r.
  - rewrite IH, hidden_at_set_display, element_at_set_display.
    destruct (decide (q = p)) as [->|Hne].
    + rewrite (bool_decide_eq_true_2 (p = p)) by done.
      rewrite (bool_decide_eq_true_2 (p ∈ p :: l)) by by left.
      by destruct (hidden_at p d), (element_at p d), (bool_decide (p ∈ l)).
    + rewrite (bool_decide_eq_false_2 (q = p)) by done.
      rewrite (bool_decide_ext (q ∈ p :: l) (q ∈ l)); [done|].
      rewrite elem_of_cons. split; [by intros [?|?]|by right].
Qed.

Lemma element_at_hide_all l q : ∀ d,
  element_at q (hide_all l d) = element_at q d.
Proof.
  intros d. apply (stable_hide_all (element_at q)). intros.
  apply element_at_set_display.
Qed.

Lemma lookup_view_hide_all l q : ∀ d,
  view <$> lookup_node q (hide_all l d) = view <$> lookup_node q d.
Proof.
  intros d. apply (stable_hide_all (λ d, view <$> lookup_node q d)). intros.
  apply lookup_view_set_display.
Qed.

Lemma hide_all_perm l l' d : l ≡ₚ l' → hide_all l d = hide_all l' d.
Proof.
  intros H. revert d. induction H as [|p l l' _ IH|p p' l|l l' l'' _ IH _ IH'];
    intros d; simpl.
  - done.
  - apply IH.
  - by rewrite set_display_comm.
  - by rewrite IH.
Qed.


(** ** What a run hides *)

Lemma runs_hidden m s q d :
  runs m s →
  hidden_at q (m d).1
  = hidden_at q d || (bool_decide (q ∈ (s d).1) && element_at q d).
Proof. intros H. rewrite H. apply hidden_at_hide_all. Qed.

Lemma runs_outcome m s d : runs m s → (m d).2 = (s d).2.
Proof. intros H. by rewrite H. Qed.

Lemma runs_monotone m s q d :
  runs m s → hidden_at q d = true → hidden_at q (m d).1 = true.
Proof. intros H Hq. by rewrite (runs_hidden m s), Hq. Qed.

Lemma in_turn_cons s l d :
  in_turn (s :: l) d
  = match (s d).2 with
    | Normal _ => ((s d).1 ++ (in_turn l d).1, (in_turn l d).2)
    | _ => s d
    end.
Proof. done. Qed.

Lemma in_turn_normal l d :
  Forall (λ s : effect, (s d).2 = Normal tt) l →
  in_turn l d = (concat ((λ s : effect, (s d).1) <$> l), Normal tt).
Proof.
  induction 1 as [|s l Hs _ IH]; [done|].
  by rewrite in_turn_cons, Hs, IH.
Qed.

(** The elements hidden until the first step that does not end normally. *)
Lemma in_turn_app_stop l s l' d :
  Forall (λ s : effect, (s d).2 = Normal tt) l →
  (s d).2 ≠ Normal tt →
  in_turn (l ++ s :: l') d = ((in_turn l d).1 ++ (s d).1, (s d).2).
Proof.
  intros Hl Hs. induction Hl as [|s0 l Hs0 _ IH].
  - change ([] ++ s :: l') with (s :: l'). rewrite in_turn_cons.
    destruct (s d) as [t [[]| |]]; done.
  - change ((s0 :: l) ++ s :: l') with (s0 :: (l ++ s :: l')).
    rewrite !in_turn_cons, Hs0, IH. simpl. by rewrite app_assoc.
Qed.

Lemma elem_of_in_turn_normal l d q :
  Forall (λ s : effect, (s d).2 = Normal tt) l →
  q ∈ (in_turn l d).1 ↔ ∃ s, s ∈ l ∧ q ∈ (s d).1.
Proof.
  induction 1 as [|s l Hs _ IH].
  - split; [by intros ?%elem_of_nil|]. by intros (s & ?%elem_of_nil & _).
  - rewrite in_turn_cons, Hs. simpl. rewrite elem_of_app, IH. split.
    + intros [?|(s' & ? & ?)]; [exists s|exists s']; split; try done.
      * by left.
      * by right.
    + intros (s' & [->|?]%elem_of_cons & ?); [by left|right; eauto].
Qed.

Lemma elem_of_targets c test base l q :
  q ∈ targets c test base l
  ↔ ∃ x, x ∈ l ∧ q = base ++ x.1
         ∧ matches_compound c x.2 = true ∧ test x.2 = true.
Proof.
  unfold targets. rewrite list_elem_of_fmap. split.
  - intros (x & -> & [Hx Hl]%list_elem_of_filter).
    apply andb_true_iff in Hx as [? ?]. eauto.
  - intros (x & Hl & -> & Hm & Ht). exists x. split; [done|].
    apply list_elem_of_filter. split; [|done]. by rewrite Hm, Ht.
Qed.

(** The elements of the document that a query and a test select. *)
Lemma elem_of_document_targets c test d q :
  q ∈ targets c test [] (elements_of d)
  ↔ ∃ n, lookup_node q d = Some n ∧ is_element n = true
         ∧ matches_compound c n = true ∧ test n = true.
Proof.
  rewrite elem_of_targets. split.
  - intros ([p n] & [Hp Hn]%elem_of_elements_of & -> & Hm & Ht). eauto.
  - intros (n & Hq & Hn & Hm & Ht). exists (q, n).
    split; [by apply elem_of_elements_of|done].
Qed.

(** The descendants of the element at [p] that a query and a test select. *)
Lemma elem_of_descendant_targets c test p d n q :
  lookup_node p d = Some n →
  q ∈ targets c test p (descendants n)
  ↔ ∃ r m, q = p ++ r ∧ r ≠ [] ∧ lookup_node q d = Some m
           ∧ is_element m = true
           ∧ matches_compound c m = true ∧ test m = true.
Proof.
  intros Hp. rewrite elem_of_targets. split.
  - intros ([r m] & Hin & -> & Hm & Ht).
    destruct (descendants_lookup p r d n m Hp Hin) as (? & ? & ?).
    exists r, m. eauto 10.
  - intros (r & m & -> & Hr & Hq & He & Hm & Ht). exists (r, m).
    split; [|done]. apply elem_of_descendants.
    rewrite lookup_node_app, Hp in Hq. done.
Qed.


(** ** Rules and their queries *)

Lemma eqb_sym_string (a b : string) : String.eqb a b = String.eqb b a.
Proof. apply String.eqb_sym. Qed.

Lemma tagName_upper n : ascii_upper (tagName n) = tagName n.
Proof. destruct n; simpl; [apply ascii_upper_idem|done..]. Qed.

Lemma upper_is_ascii c :
  Chars.is_non_ascii (Chars.upper c) = Chars.is_non_ascii c.
Proof. by destruct c as [[] [] [] [] [] [] [] []]. Qed.

Lemma is_ascii_upper s : is_ascii s = true → is_ascii (ascii_upper s) = true.
Proof.
  unfold is_ascii, all_chars. induction s as [|c s IH]; simpl; [done|].
  rewrite upper_is_ascii. intros [-> ?]%andb_true_iff. by apply IH.
Qed.

Lemma is_ascii_tagName n : ascii_named n = true → is_ascii (tagName n) = true.
Proof. destruct n; simpl; [apply is_ascii_upper|done..]. Qed.

(** The tag comparison of the self-check, on an element with an ASCII
    name and for a tag name, is the comparison that a type selector makes. *)
Lemma tag_comparison n s :
  ascii_case_mappings → ascii_named n = true → is_tag_name s = true →
  String.eqb (toUpperCase (tagName n)) (toUpperCase s)
  = matches_type n (Some s).
Proof.
  intros [Hu _] Hn [_ Hs]%andb_true_iff. simpl.
  rewrite (Hu (tagName n)) by by apply is_ascii_tagName.
  by rewrite (Hu s), tagName_upper, String.eqb_sym.
Qed.

Lemma eq_ignoring_case_refl s : eq_ignoring_case s s = true.
Proof. apply String.eqb_refl. Qed.

Lemma contains_has_class n c :
  contains (classList n) c = true → has_class n c = true.
Proof.
  unfold has_class, contains. destruct quirks; [|done].
  intros (x & Hx & ->%String.eqb_eq)%existsb_exists.
  apply existsb_exists. exists x. by rewrite eq_ignoring_case_refl.
Qed.

Lemma eqb_value_equals a w v :
  String.eqb w v = true → value_equals a w v = true.
Proof.
  intros ->%String.eqb_eq. unfold value_equals.
  destruct (case_insensitive a); [apply eq_ignoring_case_refl|apply String.eqb_refl].
Qed.

Lemma href_value_includes w v : value_includes "href" w v = includes w v.
Proof. done. Qed.

Lemma rule_parse_query r :
  rule_parse r
  = match rule_query r with
    | Some (sel, _) => Some (parse_selector sel)
    | None => None
    end.
Proof. unfold rule_parse, rule_selector, rule_query. by rule_cases r. Qed.

Lemma wf_rule_parse r :
  well_formed r = true →
  ∃ sel, rule_query r = Some (sel, rule_test r)
         ∧ parse_selector sel = Parsed (rule_compound r).
Proof.
  unfold well_formed, rule_query, rule_test, rule_compound, is_plain_string.
  rule_cases r; intros H; try done; eexists; (split; [done|]).
  - by apply parse_class_selector.
  - apply andb_true_iff in H as [_ H]. by apply parse_href_selector.
  - apply andb_true_iff in H as [? _]. by apply parse_type_selector.
  - apply andb_true_iff in H as [? _]. by apply parse_type_selector.
  - apply andb_true_iff in H as [[? _]%andb_true_iff ?].
    by apply parse_attribute_selector.
Qed.

Lemma wf_accepted r : well_formed r = true → accepted r = true.
Proof.
  intros (sel & Hq & Hp)%wf_rule_parse. unfold accepted. rewrite rule_parse_query.
  by rewrite Hq, Hp.
Qed.

Lemma settled_accepted r : settled r = true → accepted r = true.
Proof. unfold settled, accepted. by destruct (rule_parse r) as [[]|]. Qed.

Lemma wf_settled r : well_formed r = true → settled r = true.
Proof.
  intros Hwf. destruct (wf_rule_parse r Hwf) as (sel & Hq & Hp).
  unfold settled. rewrite rule_parse_query, Hq, Hp.
  revert Hwf. unfold well_formed, rule_compound, avoids_style.
  rule_cases r; try done. simpl.
  intros [[_ ->]%andb_true_iff _]%andb_true_iff. done.
Qed.

Lemma unknown_settled r : known_type r = false → settled r = true.
Proof.
  unfold known_type, settled, rule_parse, rule_selector.
  by rule_cases r.
Qed.

Lemma all_settled rules :
  Forall (λ r, settled r = true) rules → Forall (λ r, accepted r = true) rules.
Proof.
  intros H. eapply Forall_impl; [done|]. intros r. apply settled_accepted.
Qed.


(** For a well-formed rule other than a href rule, what the self-check
    accepts on an element with an ASCII name, the query and test of the
    rule select. *)
Lemma wf_matchesRule_selected r n :
  ascii_case_mappings → well_formed r = true →
  String.eqb (type r) "href" = false → ascii_named n = true →
  matchesRule n r = true →
  matches_compound (rule_compound r) n && rule_test r n = true.
Proof.
  intros Hm. unfold well_formed, matchesRule, rule_compound, rule_test,
    matches_compound.
  rule_cases r; intros H Hh Hn; try done; cbn [sel_type sel_simple forallb].
  - intros Hc%contains_has_class. simpl. by rewrite Hc.
  - rewrite tag_comparison by done. by rewrite !andb_true_r.
  - rewrite tag_comparison by done. by rewrite !andb_true_r.
  - simpl. destruct (getAttribute (attr r) n); [|done].
    intros Hv. by rewrite (eqb_value_equals _ _ _ Hv).
Qed.

(** The query of the rule compares as the self-check does: a class rule
    outside quirks mode, an attribute rule on an attribute whose values
    selectors compare exactly, any content or title rule. *)
Lemma wf_matchesRule r n :
  ascii_case_mappings → well_formed r = true →
  String.eqb (type r) "href" = false → ascii_named n = true →
  exact_query r = true →
  matchesRule n r = matches_compound (rule_compound r) n && rule_test r n.
Proof.
  intros Hm. unfold well_formed, matchesRule, rule_compound, rule_test,
    matches_compound, exact_query.
  rule_cases r; intros H Hh Hn He; try done; cbn [sel_type sel_simple forallb].
  - simpl. unfold has_class. destruct quirks; [done|]. by rewrite !andb_true_r.
  - rewrite tag_comparison by done. by rewrite !andb_true_r.
  - rewrite tag_comparison by done. by rewrite !andb_true_r.
  - simpl. unfold value_equals. destruct (case_insensitive (attr r)); [done|].
    by destruct (getAttribute (attr r) n); rewrite ?andb_true_r.
Qed.

(** For a well-formed href rule, the query selects the anchors whose
    [href] attribute contains the value. *)
Lemma wf_href_query r n :
  well_formed r = true → String.eqb (type r) "href" = true →
  matches_compound (rule_compound r) n && rule_test r n
  = href_attribute_includes (value r) n.
Proof.
  unfold well_formed, rule_compound, rule_test, matches_compound,
    href_attribute_includes.
  rule_cases r; intros H Hh; try done.
  - apply String.eqb_eq in Hclass. apply String.eqb_eq in Hh. congruence.
  - apply andb_true_iff in H as [Hv _]. simpl.
    change (ascii_upper "a") with "A".
    rewrite eqb_sym_string, Hv.
    destruct (getAttribute "href" n); rewrite ?andb_true_r; [|done].
    by rewrite href_value_includes.
Qed.

(** How the application of a rule ends. *)
Lemma rule_effect_outcome r d :
  (rule_effect r d).2
  = match rule_parse r with
    | Some (Parsed _) | None => Normal tt
    | Some Invalid => Throw SyntaxError
    | Some Outside => OutOfFragment
    end.
Proof.
  rewrite rule_parse_query. unfold rule_effect, query_effect.
  destruct (rule_query r) as [[sel test]|]; [|done].
  by destruct (parse_selector sel).
Qed.

Lemma descendant_effect_outcome p r d :
  element_at p d = true →
  (descendant_effect p r d).2
  = match rule_parse r with
    | Some (Parsed _) | None => Normal tt
    | Some Invalid => Throw SyntaxError
    | Some Outside => OutOfFragment
    end.
Proof.
  rewrite rule_parse_query. unfold descendant_effect, query_effect, element_at.
  destruct (rule_query r) as [[sel test]|]; [|done].
  destruct (lookup_node p d) as [[]|]; try done.
  by destruct (parse_selector sel).
Qed.

Lemma accepted_rule_effect r d :
  accepted r = true → (rule_effect r d).2 = Normal tt.
Proof.
  rewrite rule_effect_outcome. unfold accepted.
  by destruct (rule_parse r) as [[]|].
Qed.

Lemma accepted_descendant_effect p r d :
  accepted r = true → element_at p d = true →
  (descendant_effect p r d).2 = Normal tt.
Proof.
  intros Ha He. rewrite descendant_effect_outcome by done. unfold accepted in Ha.
  by destruct (rule_parse r) as [[]|].
Qed.

Lemma rejected_rule_effect r d :
  rejected r = true → rule_effect r d = ([], Throw SyntaxError).
Proof.
  unfold rejected. rewrite rule_parse_query. unfold rule_effect, query_effect.
  destruct (rule_query r) as [[sel test]|]; [|done].
  by destruct (parse_selector sel).
Qed.


(** The elements that the application of a well-formed rule hides. *)
Lemma wf_rule_effect r d :
  well_formed r = true →
  rule_effect r d
  = (targets (rule_compound r) (rule_test r) [] (elements_of d), Normal tt).
Proof.
  intros (sel & Hq & Hp)%wf_rule_parse. unfold rule_effect, query_effect.
  by rewrite Hq, Hp.
Qed.

Lemma wf_descendant_effect p r d e cs :
  well_formed r = true → lookup_node p d = Some (Element e cs) →
  descendant_effect p r d
  = (targets (rule_compound r) (rule_test r) p (descendants (Element e cs)),
     Normal tt).
Proof.
  intros (sel & Hq & Hp)%wf_rule_parse Hl.
  unfold descendant_effect, query_effect. by rewrite Hq, Hl, Hp.
Qed.

Lemma all_accepted_sweep rules d :
  Forall (λ r, accepted r = true) rules →
  Forall (λ s : effect, (s d).2 = Normal tt) (rule_effect <$> rules).
Proof.
  intros H. apply Forall_fmap. eapply Forall_impl; [done|].
  intros r Hr. by apply accepted_rule_effect.
Qed.

Lemma all_accepted_descendants rules p d :
  Forall (λ r, accepted r = true) rules → element_at p d = true →
  Forall (λ s : effect, (s d).2 = Normal tt) (descendant_effect p <$> rules).
Proof.
  intros H He. apply Forall_fmap. eapply Forall_impl; [done|].
  intros r Hr. by apply accepted_descendant_effect.
Qed.


(** ** The elements a query hides, read on the document *)

Lemma drop_prefix_app p : ∀ q r, drop_prefix p q = Some r ↔ q = p ++ r.
Proof.
  induction p as [|i p IH]; intros [|j q] r; simpl.
  - split; intros; by simplify_eq.
  - split; intros; by simplify_eq.
  - split; intros; simplify_eq.
  - case_decide as Hij.
    + subst. rewrite IH. split; intros; by simplify_eq.
    + split; intros; simplify_eq.
Qed.

Lemma strictly_below_spec p q :
  strictly_below p q = true ↔ ∃ r, q = p ++ r ∧ r ≠ [].
Proof.
  unfold strictly_below. split.
  - destruct (drop_prefix p q) as [[|i r]|] eqn:H; try done.
    intros _. apply drop_prefix_app in H. by exists (i :: r).
  - intros (r & -> & Hr).
    assert (drop_prefix p (p ++ r) = Some r) as -> by by apply drop_prefix_app.
    by destruct r.
Qed.

Lemma document_targets_at c test d q :
  bool_decide (q ∈ targets c test [] (elements_of d)) && element_at q d
  = test_at (λ n, is_element n && matches_compound c n && test n) q d.
Proof.
  unfold test_at, element_at. apply eq_true_iff_eq.
  rewrite andb_true_iff, bool_decide_eq_true, elem_of_document_targets.
  split.
  - intros [(n & -> & He & Hm & Ht) _]. by rewrite He, Hm, Ht.
  - destruct (lookup_node q d) as [n|]; [|done].
    intros [[He Hm]%andb_true_iff Ht]%andb_true_iff. split; [|done].
    by exists n.
Qed.

Lemma descendant_targets_at c test p d n q :
  lookup_node p d = Some n →
  bool_decide (q ∈ targets c test p (descendants n)) && element_at q d
  = strictly_below p q
    && test_at (λ n, is_element n && matches_compound c n && test n) q d.
Proof.
  intros Hp. unfold test_at, element_at. apply eq_true_iff_eq.
  rewrite !andb_true_iff, bool_decide_eq_true, strictly_below_spec,
    (elem_of_descendant_targets c test p d n q Hp).
  split.
  - intros [(r & m & -> & Hr & -> & He & Hm & Ht) _].
    rewrite He, Hm, Ht. split; [by exists r|done].
  - intros [(r & -> & Hr) H].
    destruct (lookup_node (p ++ r) d) as [m|]; [|done].
    apply andb_true_iff in H as [[He Hm]%andb_true_iff Ht].
    split; [|done]. by exists r, m.
Qed.

(** The sweep of one rule whose query is the selector [c]: an element is
    hidden afterwards if and only if it was hidden or [c] and the test of
    the rule select it. *)
Lemma parsed_applyHideRule_hidden r sel test c d q :
  rule_query r = Some (sel, test) → parse_selector sel = Parsed c →
  (applyHideRule r d).2 = Normal tt
  ∧ hidden_at q (applyHideRule r d).1
    = hidden_at q d
      || test_at (λ n, is_element n && matches_compound c n && test n) q d.
Proof.
  intros Hq Hc.
  assert (rule_effect r d = (targets c test [] (elements_of d), Normal tt)) as He
    by (unfold rule_effect, query_effect; by rewrite Hq, Hc).
  split.
  - by rewrite (runs_outcome _ _ _ (runs_applyHideRule r)), He.
  - rewrite (runs_hidden _ _ _ _ (runs_applyHideRule r)), He. cbn [fst].
    by rewrite document_targets_at.
Qed.

Lemma parsed_hideDescendants_hidden r sel test c p d q :
  rule_query r = Some (sel, test) → parse_selector sel = Parsed c →
  element_at p d = true →
  (hideDescendants p r d).2 = Normal tt
  ∧ hidden_at q (hideDescendants p r d).1
    = hidden_at q d
      || (strictly_below p q
          && test_at (λ n, is_element n && matches_compound c n && test n) q d).
Proof.
  intros Hq Hc He. unfold element_at in He.
  destruct (lookup_node p d) as [[e cs| |]|] eqn:Hp; try done.
  assert (descendant_effect p r d
          = (targets c test p (descendants (Element e cs)), Normal tt)) as Hd
    by (unfold descendant_effect, query_effect; by rewrite Hq, Hp, Hc).
  split.
  - by rewrite (runs_outcome _ _ _ (runs_hideDescendants p r)), Hd.
  - rewrite (runs_hidden _ _ _ _ (runs_hideDescendants p r)), Hd. cbn [fst].
    by erewrite descendant_targets_at.
Qed.

Lemma wf_applyHideRule_hidden r d q :
  well_formed r = true →
  (applyHideRule r d).2 = Normal tt
  ∧ hidden_at q (applyHideRule r d).1
    = hidden_at q d
      || test_at (λ n, is_element n
                       && matches_compound (rule_compound r) n
                       && rule_test r n) q d.
Proof.
  intros (sel & Hq & Hp)%wf_rule_parse.
  by eapply parsed_applyHideRule_hidden.
Qed.

Lemma wf_hideDescendants_hidden r p d q :
  well_formed r = true → element_at p d = true →
  (hideDescendants p r d).2 = Normal tt
  ∧ hidden_at q (hideDescendants p r d).1
    = hidden_at q d
      || (strictly_below p q
          && test_at (λ n, is_element n
                           && matches_compound (rule_compound r) n
                           && rule_test r n) q d).
Proof.
  intros (sel & Hq & Hp)%wf_rule_parse He.
  by eapply parsed_hideDescendants_hidden.
Qed.

Lemma test_at_ext f g q d : (∀ n, f n = g n) → test_at f q d = test_at g q d.
Proof. intros H. unfold test_at. by destruct (lookup_node q d). Qed.

Lemma test_at_ext_at f g q d :
  (∀ n, lookup_node q d = Some n → f n = g n) → test_at f q d = test_at g q d.
Proof. intros H. unfold test_at. destruct (lookup_node q d); [by apply H|done]. Qed.


Lemma wf_hideDescendants_self_check r p d q :
  ascii_case_mappings → well_formed r = true →
  String.eqb (type r) "href" = false → exact_query r = true →
  (∀ n, lookup_node q d = Some n → ascii_named n = true) →
  element_at p d = true →
  hidden_at q (hideDescendants p r d).1
  = hidden_at q d
    || (strictly_below p q && test_at (λ n, is_element n && matchesRule n r) q d).
Proof.
  intros Hm Hwf Hh Hx Hn He.
  destruct (wf_hideDescendants_hidden r p d q Hwf He) as [_ ->].
  do 2 f_equal. apply test_at_ext_at. intros n Hl.
  rewrite wf_matchesRule by eauto. by rewrite andb_assoc.
Qed.

(** For a well-formed href rule they hide the anchors whose [href]
    attribute contains the value. *)
Lemma wf_applyHideRule_href r d q :
  well_formed r = true → String.eqb (type r) "href" = true →
  hidden_at q (applyHideRule r d).1
  = hidden_at q d
    || test_at (λ n, is_element n && href_attribute_includes (value r) n) q d.
Proof.
  intros Hwf Hh. destruct (wf_applyHideRule_hidden r d q Hwf) as [_ ->].
  f_equal. apply test_at_ext. intros n.
  by rewrite <-wf_href_query, andb_assoc.
Qed.

Lemma wf_hideDescendants_href r p d q :
  well_formed r = true → String.eqb (type r) "href" = true →
  element_at p d = true →
  hidden_at q (hideDescendants p r d).1
  = hidden_at q d
    || (strictly_below p q
        && test_at (λ n, is_element n && href_attribute_includes (value r) n) q d).
Proof.
  intros Hwf Hh He.
  destruct (wf_hideDescendants_hidden r p d q Hwf He) as [_ ->].
  do 2 f_equal. apply test_at_ext. intros n.
  by rewrite <-wf_href_query, andb_assoc.
Qed.

(** Whatever the selector, a rule hides only elements that pass its test. *)
Lemma rule_effect_test r sel test d q :
  rule_query r = Some (sel, test) →
  q ∈ (rule_effect r d).1 → test_at test q d = true.
Proof.
  intros Hq. unfold rule_effect, query_effect. rewrite Hq.
  destruct (parse_selector sel) as [c| |]; simpl;
    [|by intros ?%elem_of_nil..].
  intros (n & Hn & _ & _ & Ht)%elem_of_document_targets.
  unfold test_at. by rewrite Hn.
Qed.

Lemma descendant_effect_test p r sel test d q :
  rule_query r = Some (sel, test) →
  q ∈ (descendant_effect p r d).1 → test_at test q d = true.
Proof.
  intros Hq. unfold descendant_effect, query_effect. rewrite Hq.
  destruct (lookup_node p d) as [[e cs| |]|] eqn:Hp; simpl;
    try by intros ?%elem_of_nil.
  destruct (parse_selector sel) as [c| |]; simpl;
    [|by intros ?%elem_of_nil..].
  intros (r' & m & _ & _ & Hm & _ & _ & Ht)%(elem_of_descendant_targets _ _ _ _ _ _ Hp).
  unfold test_at. by rewrite Hm.
Qed.

Lemma not_selected_unchanged m s q d :
  runs m s → q ∉ (s d).1 → hidden_at q (m d).1 = hidden_at q d.
Proof.
  intros H Hq. rewrite (runs_hidden m s) by done.
  by rewrite bool_decide_eq_false_2, orb_false_r.
Qed.


(** ** The selectors of the fragment, read *)

Example parse_examples :
  parse_selector ".ad" = Parsed (Compound None [SClass "ad"])
  ∧ parse_selector "span.title[lang]"
    = Parsed (Compound (Some "span") [SClass "title"; SAttrHas "lang"])
  ∧ parse_selector "." = Invalid
  ∧ parse_selector ".1st" = Invalid
  ∧ parse_selector EmptyString = Invalid
  ∧ parse_selector ("a[href*=" +:+ q +:+ "x" +:+ q +:+ "y" +:+ q +:+ "]") = Invalid
  ∧ parse_selector "div span" = Outside
  ∧ parse_selector "a:hover" = Outside.
Proof. by vm_compute. Qed.


(** * The claims *)

(** ** C4, C8: the hide action *)

Lemma hideElement_idem p d : hideElement p (hideElement p d).1 = hideElement p d.
Proof.
  rewrite !hideElement_run. destruct (element_at p d) eqn:He; simpl.
  - by rewrite element_at_set_display, He, set_display_idem.
  - by rewrite He.
Qed.

(** C4. The set of hidden nodes only grows. Hiding an element a second
    time changes nothing and ends as the first time did
    ([hide(hide(n)) = hide(n)]); and a node that is hidden stays hidden
    through [hideElement], the application of a rule, the sweep
    [hideAllElements], [hideElementsInNode] and the callback of the
    observer, whatever the rules and however the run ends. *)
Theorem C4_hidden_only_grows (rules : list rule) (ms : list mutation)
    (r : rule) (p : ref) (d : document) :
  hideElement p (hideElement p d).1 = hideElement p d
  ∧ ∀ q, hidden_at q d = true →
      hidden_at q (hideElement p d).1 = true
      ∧ hidden_at q (applyHideRule r d).1 = true
      ∧ hidden_at q (hideAllElements rules d).1 = true
      ∧ hidden_at q (hideElementsInNode rules p d).1 = true
      ∧ hidden_at q (observer rules ms d).1 = true.
Proof.
  split; [apply hideElement_idem|]. intros q Hq. split_and!.
  - by eapply runs_monotone; [apply runs_hideElement|].
  - by eapply runs_monotone; [apply runs_applyHideRule|].
  - by eapply runs_monotone; [apply runs_hideAllElements|].
  - by eapply runs_monotone; [apply runs_hideElementsInNode|].
  - by eapply runs_monotone; [apply runs_observer|].
Qed.

Lemma element_data_set_display v r n :
  r ≠ [] →
  match set_display v r n with Element e _ => Some e | _ => None end
  = match n with Element e _ => Some e | _ => None end.
Proof.
  intros Hr. destruct n as [e cs| |], r as [|i r]; simpl; try done.
  by destruct (cs !! i).
Qed.

(** C8. The hide action writes the [display] of the inline style of its
    target and nothing else: the target stays where it is with the same
    name, attributes and children; every other element keeps all its
    data, its visibility included; and every node of the tree keeps its
    kind, name, attributes and text. *)
Theorem C8_hide_touches_only_display (p : ref) (d d' : document) :
  hideElement p d = (d', Normal tt) →
  (∃ e cs, lookup_node p d = Some (Element e cs)
           ∧ lookup_node p d' = Some (Element (with_display "none" e) cs))
  ∧ (∀ q, q ≠ p → element_data_at q d' = element_data_at q d)
  ∧ (∀ q, q ≠ p → hidden_at q d' = hidden_at q d)
  ∧ (∀ q, view <$> lookup_node q d' = view <$> lookup_node q d).
Proof.
  rewrite hideElement_run. destruct (element_at p d) eqn:He; [|done].
  intros [= <-]. split_and!.
  - unfold element_at in He.
    destruct (lookup_node p d) as [[e cs| |]|] eqn:Hl; try done.
    exists e, cs. split; [done|]. rewrite lookup_set_display, Hl. simpl.
    by assert (drop_prefix p p = Some []) as -> by by apply drop_prefix_nil.
  - intros q Hq. unfold element_data_at. rewrite lookup_set_display.
    destruct (lookup_node q d) as [n|]; [|done]. simpl.
    destruct (drop_prefix q p) as [r|] eqn:Hr; [|done].
    apply element_data_set_display. intros ->.
    by apply drop_prefix_nil in Hr.
  - intros q Hq. rewrite hidden_at_set_display.
    by rewrite bool_decide_eq_false_2.
  - intros q. apply lookup_view_set_display.
Qed.


(** ** C5: attribute rules *)







(** ** C9: empty text and empty title *)

Lemma text_test_empty k n : textContent n = EmptyString → text_test k n = false.
Proof. intros H. unfold text_test. by rewrite H. Qed.

Lemma title_test_empty k n : title n = EmptyString → title_test k n = false.
Proof. intros H. unfold title_test. by rewrite H. Qed.

Lemma failing_test_unchanged r sel test d q n :
  rule_query r = Some (sel, test) →
  lookup_node q d = Some n → test n = false →
  hidden_at q (applyHideRule r d).1 = hidden_at q d
  ∧ ∀ p, hidden_at q (hideDescendants p r d).1 = hidden_at q d.
Proof.
  intros Hq Hn Ht. split; [|intros p].
  - eapply not_selected_unchanged; [apply runs_applyHideRule|].
    intros Hin%(rule_effect_test _ _ _ _ _ Hq).
    unfold test_at in Hin. rewrite Hn in Hin. congruence.
  - eapply not_selected_unchanged; [apply runs_hideDescendants|].
    intros Hin%(descendant_effect_test _ _ _ _ _ _ Hq).
    unfold test_at in Hin. rewrite Hn in Hin. congruence.
Qed.

(** C9. A content rule never matches an element whose text content is
    empty, and neither the sweep nor the descendant step of the rule
    hides it, whatever the selector and the value of the rule, the empty
    value included; the same holds for a title rule and an element whose
    title is empty or absent. *)
Theorem C9_empty_text_never_matches (r : rule) (n : node) :
  (type r = "content" → textContent n = EmptyString →
     matchesRule n r = false
     ∧ ∀ d q, lookup_node q d = Some n →
         hidden_at q (applyHideRule r d).1 = hidden_at q d
         ∧ ∀ p, hidden_at q (hideDescendants p r d).1 = hidden_at q d)
  ∧ (type r = "title" → title n = EmptyString →
       matchesRule n r = false
       ∧ ∀ d q, lookup_node q d = Some n →
           hidden_at q (applyHideRule r d).1 = hidden_at q d
           ∧ ∀ p, hidden_at q (hideDescendants p r d).1 = hidden_at q d).
Proof.
  split; intros Ht Hn.
  - split.
    + unfold matchesRule. rewrite Ht. simpl.
      by rewrite text_test_empty, andb_false_r.
    + intros d q Hq.
      eapply (failing_test_unchanged r (selector r) (text_test (value r)));
        [|done|by apply text_test_empty].
      unfold rule_query. by rewrite Ht.
  - split.
    + unfold matchesRule. rewrite Ht. simpl.
      by rewrite title_test_empty, andb_false_r.
    + intros d q Hq.
      eapply (failing_test_unchanged r (selector r) (title_test (value r)));
        [|done|by apply title_test_empty].
      unfold rule_query. by rewrite Ht.
Qed.

(** ** C10: href rules *)

Lemma matchesRule_href r n :
  type r = "href" →
  matchesRule n r = true
  ↔ tagName n = "A" ∧ includes (node_href n) (value r) = true.
Proof.
  intros Ht. unfold matchesRule. rewrite Ht. simpl.
  by rewrite andb_true_iff, String.eqb_eq.
Qed.

Lemma targets_nil c test base l :
  (∀ n, matches_compound c n = false) → targets c test base l = [].
Proof.
  intros H. unfold targets. induction l as [|x l IH]; [done|].
  rewrite filter_cons. rewrite H. simpl.
  by destruct (decide (false = true)).
Qed.

(** With the empty value the query of a href rule selects nothing. *)
Lemma href_rule_empty_value r :
  type r = "href" → value r = EmptyString →
  (∀ d, applyHideRule r d = (d, Normal tt))
  ∧ (∀ p d, element_at p d = true → hideDescendants p r d = (d, Normal tt)).
Proof.
  intros Ht Hv.
  assert (rule_query r
          = Some ("a[href*=" +:+ q +:+ EmptyString +:+ q +:+ "]", λ _, true)) as Hq
    by (unfold rule_query; by rewrite Ht, Hv).
  assert (∀ n, matches_compound
                 (Compound (Some "a") [SAttr "href" OpContains EmptyString]) n
               = false) as Hm.
  { intros n. unfold matches_compound. simpl.
    destruct (getAttribute "href" n); by rewrite andb_false_r. }
  split.
  - intros d. rewrite (runs_applyHideRule r d).
    unfold rule_effect, query_effect. rewrite Hq.
    change (parse_selector ("a[href*=" +:+ q +:+ EmptyString +:+ q +:+ "]"))
      with (Parsed (Compound (Some "a") [SAttr "href" OpContains EmptyString])).
    cbn [fst snd]. by rewrite targets_nil.
  - intros p d He. rewrite (runs_hideDescendants p r d).
    unfold descendant_effect, query_effect. rewrite Hq.
    unfold element_at in He.
    destruct (lookup_node p d) as [[e cs| |]|]; try done.
    change (parse_selector ("a[href*=" +:+ q +:+ EmptyString +:+ q +:+ "]"))
      with (Parsed (Compound (Some "a") [SAttr "href" OpContains EmptyString])).
    cbn [fst snd]. by rewrite targets_nil.
Qed.

(** C10. The self-check of a href rule accepts the anchors whose resolved
    URL (the [href] property) contains the value; the sweep and the
    descendant search of a well-formed href rule, whose value is not empty
    and can stand between the quotes of the query, hide the anchors whose
    [href] attribute contains it, and with the empty value they hide
    nothing; and the two disagree on some anchors, in both directions: a
    relative link on a page whose address contains the value, and a link
    whose attribute carries the value in a host name written in
    capitals. *)
Theorem C10_href_self_check_and_query :
  (∀ r n, type r = "href" →
     matchesRule n r = true
     ↔ tagName n = "A" ∧ includes (node_href n) (value r) = true)
  ∧ (∀ r d q, type r = "href" → well_formed r = true →
       hidden_at q (applyHideRule r d).1
       = hidden_at q d
         || test_at (λ n, is_element n && href_attribute_includes (value r) n) q d)
  ∧ (∀ r p d q, type r = "href" → well_formed r = true →
       element_at p d = true →
       hidden_at q (hideDescendants p r d).1
       = hidden_at q d
         || (strictly_below p q
             && test_at (λ n, is_element n
                              && href_attribute_includes (value r) n) q d))
  ∧ (∀ r, type r = "href" → value r = EmptyString →
       (∀ d, applyHideRule r d = (d, Normal tt))
       ∧ (∀ p d, element_at p d = true → hideDescendants p r d = (d, Normal tt)))
  ∧ (let n := Sample.a "/post" "https://bbb.example/post" [] in
     matchesRule n (Sample.href_rule "bbb") = true
     ∧ href_attribute_includes "bbb" n = false)
  ∧ (let n := Sample.a "HTTPS://BBB.example/" "https://bbb.example/" [] in
     matchesRule n (Sample.href_rule "BBB") = false
     ∧ href_attribute_includes "BBB" n = true).
Proof.
  split_and!.
  - apply matchesRule_href.
  - intros r d q Ht Hwf. apply wf_applyHideRule_href; [done|]. by rewrite Ht.
  - intros r p d q Ht Hwf He. apply wf_hideDescendants_href; [done| |done].
    by rewrite Ht.
  - apply href_rule_empty_value.
  - by vm_compute.
  - by vm_compute.
Qed.


(** ** C6: the selector of content and title rules *)


(** ** C1: the sweep *)

(** The sweep is complete for the well-formed rules other than href rules:
    when every query of the rule set is accepted, an element with an ASCII
    name that the self-check of such a rule accepts is hidden by the
    sweep. *)
Lemma sweep_complete_but_href rules r d q n :
  ascii_case_mappings →
  Forall (λ r, accepted r = true) rules →
  r ∈ rules → well_formed r = true → String.eqb (type r) "href" = false →
  lookup_node q d = Some n → is_element n = true → ascii_named n = true →
  matchesRule n r = true →
  (hideAllElements rules d).2 = Normal tt
  ∧ hidden_at q (hideAllElements rules d).1 = true.
Proof.
  intros Hmap Hall Hr Hwf Hh Hq He Ha Hm.
  apply wf_matchesRule_selected in Hm; [|done..].
  pose proof (all_accepted_sweep rules d Hall) as Hn. split.
  - rewrite (runs_outcome _ _ _ (runs_hideAllElements rules)).
    by rewrite in_turn_normal.
  - rewrite (runs_hidden _ _ _ _ (runs_hideAllElements rules)).
    apply orb_true_iff. right. apply andb_true_iff. split.
    + apply bool_decide_eq_true, elem_of_in_turn_normal; [done|].
      exists (rule_effect r). split; [by apply list_elem_of_fmap_2|].
      rewrite wf_rule_effect by done. cbn [fst].
      apply elem_of_document_targets. exists n. split_and!; try done.
      * by apply andb_true_iff in Hm as [? ?].
      * by apply andb_true_iff in Hm as [? ?].
    + unfold element_at. by rewrite Hq.
Qed.

(** C1, at the input where the code departs from it. On a page served from
    [https://bbb.example/], the link [<a href="/post">] resolves to
    [https://bbb.example/post]: the self-check of the well-formed rule for
    href and [bbb] accepts it, the sweep completes and leaves it visible. *)
Theorem C1_sweep_misses_resolved_href :
  let r := Sample.href_rule "bbb" in
  let n := Sample.a "/post" "https://bbb.example/post" [Text "post"] in
  well_formed r = true
  ∧ lookup_node [0] Sample.relative_page = Some n
  ∧ matchesRule n r = true
  ∧ hideAllElements [r] Sample.relative_page = (Sample.relative_page, Normal tt)
  ∧ hidden_at [0] (hideAllElements [r] Sample.relative_page).1 = false.
Proof. by vm_compute. Qed.


(** ** C7: the order of the rules *)

Lemma same_effect_refl d s : same_effect d s s.
Proof. done. Qed.

Lemma same_effect_trans d s1 s2 s3 :
  same_effect d s1 s2 → same_effect d s2 s3 → same_effect d s1 s3.
Proof. intros [H1 H2] [H3 H4]. split; [by etrans|congruence]. Qed.

Lemma same_effect_then d s1 s1' s2 s2' :
  same_effect d s1 s1' → same_effect d s2 s2' →
  same_effect d (then_ s1 s2) (then_ s1' s2').
Proof.
  intros [H1 H2] [H3 H4]. unfold same_effect, then_. rewrite <-H2.
  destruct (s1 d).2 eqn:E; simpl; [|split; [done|congruence]..].
  split; [|done]. by apply Permutation_app.
Qed.

Lemma same_effect_in_turn d l l' :
  Forall2 (same_effect d) l l' → same_effect d (in_turn l) (in_turn l').
Proof.
  induction 1 as [|s s' l l' Hs _ IH]; [done|]. by apply same_effect_then.
Qed.

Lemma same_effect_run d m m' s s' :
  runs m s → runs m' s' → same_effect d s s' → m d = m' d.
Proof.
  intros Hm Hm' [Hp Ho]. rewrite Hm, Hm', Ho. f_equal. by apply hide_all_perm.
Qed.

(** Steps that all end normally can be taken in any order. *)
Lemma in_turn_perm (f : rule → effect) d rules rules' :
  rules ≡ₚ rules' →
  Forall (λ r, (f r d).2 = Normal tt) rules →
  same_effect d (in_turn (f <$> rules)) (in_turn (f <$> rules')).
Proof.
  induction 1 as [|r l l' Hl IH|r r' l|l l' l'' Hl IH Hl' IH']; intros Hn.
  - done.
  - apply Forall_cons in Hn as [Hr Hn]. rewrite !fmap_cons.
    apply same_effect_then; [done|by apply IH].
  - apply Forall_cons in Hn as [Hr' [Hr Hn]%Forall_cons].
    rewrite !fmap_cons. unfold same_effect. rewrite !in_turn_cons, Hr, Hr'.
    simpl. split; [|done]. rewrite !app_assoc.
    apply Permutation_app; [apply Permutation_app_comm|done].
  - eapply same_effect_trans; [by apply IH|]. apply IH'. by rewrite <-Hl.
Qed.

Lemma shouldHideNode_perm rules rules' n :
  rules ≡ₚ rules' → shouldHideNode rules n = shouldHideNode rules' n.
Proof.
  unfold shouldHideNode.
  induction 1 as [|r l l' _ IH|r r' l|l l' l'' _ IH _ IH']; simpl.
  - done.
  - by rewrite IH.
  - by rewrite !orb_assoc, (orb_comm (matchesRule n r')).
  - by rewrite IH.
Qed.

Lemma added_effect_perm rules rules' p d :
  rules ≡ₚ rules' → Forall (λ r, accepted r = true) rules →
  same_effect d (added_effect rules p) (added_effect rules' p).
Proof.
  intros Hp Ha. unfold same_effect, added_effect.
  destruct (lookup_node p d) as [n|] eqn:Hl; [|done].
  destruct (is_element n) eqn:He; [|done].
  apply same_effect_then.
  - unfold same_effect, self_effect. rewrite Hl.
    by rewrite (shouldHideNode_perm rules rules').
  - apply in_turn_perm; [done|]. eapply Forall_impl; [done|].
    intros r Hr. apply accepted_descendant_effect; [done|].
    unfold element_at. by rewrite Hl.
Qed.

Lemma Forall2_fmap_same {A} (f g : A → effect) d l :
  (∀ x, same_effect d (f x) (g x)) →
  Forall2 (same_effect d) (f <$> l) (g <$> l).
Proof. intros H. induction l; constructor; auto. Qed.

Lemma mutation_effect_perm rules rules' m d :
  rules ≡ₚ rules' → Forall (λ r, accepted r = true) rules →
  same_effect d (mutation_effect rules m) (mutation_effect rules' m).
Proof.
  intros Hp Ha. unfold mutation_effect.
  destruct (String.eqb _ _); [|done].
  apply same_effect_in_turn, Forall2_fmap_same. intros p.
  by apply added_effect_perm.
Qed.

(** C7, amended. When the query of every rule of the rule set is a
    compound selector (a tag name or [*], class selectors and the
    attribute selectors [[a]], [[a="v"]] and [[a*="v"]], with no
    combinator, pseudo-class or list) that does not name the [style]
    attribute, as the query of every well-formed rule is, or the rule makes
    no query, the order of the rules does not matter: for every permutation
    of the rule set the sweep ends in the same document and in the same
    way, and so does the callback of the observer on every batch. *)
Theorem C7_rule_order_irrelevant (rules rules' : list rule) (d : document) :
  Forall (λ r, settled r = true) rules →
  rules ≡ₚ rules' →
  hideAllElements rules d = hideAllElements rules' d
  ∧ (∀ ms, observer rules ms d = observer rules' ms d)
  ∧ (∀ r, well_formed r = true ∨ known_type r = false → settled r = true).
Proof.
  intros Ha%all_settled Hp. split_and!; [|intros ms|];
    [| |by intros r [?%wf_settled|?%unknown_settled]].
  - eapply same_effect_run; [apply runs_hideAllElements..|].
    apply in_turn_perm; [done|]. eapply Forall_impl; [done|].
    intros r Hr. by apply accepted_rule_effect.
  - eapply same_effect_run; [apply runs_observer..|].
    apply same_effect_in_turn, Forall2_fmap_same. intros m.
    by apply mutation_effect_perm.
Qed.


(** ** C2: inserted subtrees *)

Lemma self_effect_at rules p d n :
  lookup_node p d = Some n → is_element n = true →
  self_effect rules p d = (if shouldHideNode rules n then [p] else [], Normal tt).
Proof.
  intros Hl He. unfold self_effect. rewrite Hl.
  destruct (shouldHideNode rules n); [|done].
  unfold hide_effect, element_at. by rewrite Hl, He.
Qed.

Lemma node_effect_accepted rules p d n :
  Forall (λ r, accepted r = true) rules →
  lookup_node p d = Some n → is_element n = true →
  node_effect rules p d
  = ((if shouldHideNode rules n then [p] else [])
     ++ (in_turn (descendant_effect p <$> rules) d).1, Normal tt).
Proof.
  intros Ha Hl He. unfold node_effect, then_.
  rewrite (self_effect_at rules p d n) by done. cbn [fst snd].
  rewrite in_turn_normal; [done|].
  apply all_accepted_descendants; [done|]. unfold element_at. by rewrite Hl.
Qed.

Lemma added_effect_accepted rules p d :
  Forall (λ r, accepted r = true) rules → is_Some (lookup_node p d) →
  (added_effect rules p d).2 = Normal tt.
Proof.
  intros Ha [n Hl]. unfold added_effect. rewrite Hl.
  destruct (is_element n) eqn:He; [|done].
  by rewrite (node_effect_accepted rules p d n).
Qed.

Lemma mutation_effect_accepted rules m d :
  Forall (λ r, accepted r = true) rules →
  Forall (λ p, is_Some (lookup_node p d)) (addedNodes m) →
  (mutation_effect rules m d).2 = Normal tt.
Proof.
  intros Ha Hm. unfold mutation_effect. destruct (String.eqb _ _); [|done].
  rewrite in_turn_normal; [done|]. apply Forall_fmap.
  eapply Forall_impl; [done|]. intros p Hp. by apply added_effect_accepted.
Qed.

Lemma observer_effect_accepted rules ms d :
  Forall (λ r, accepted r = true) rules →
  Forall (λ m, Forall (λ p, is_Some (lookup_node p d)) (addedNodes m)) ms →
  Forall (λ s : effect, (s d).2 = Normal tt) (mutation_effect rules <$> ms).
Proof.
  intros Ha Hm. apply Forall_fmap. eapply Forall_impl; [done|].
  intros m Hp. by apply mutation_effect_accepted.
Qed.




(** ** C3: malformed rules *)


Lemma sweep_stops_at_rejected pre r post d :
  Forall (λ r, accepted r = true) pre → rejected r = true →
  hideAllElements (pre ++ r :: post) d
  = ((hideAllElements pre d).1, Throw SyntaxError).
Proof.
  intros Ha Hr.
  rewrite (runs_hideAllElements (pre ++ r :: post) d),
    (runs_hideAllElements pre d).
  rewrite fmap_app, fmap_cons, in_turn_app_stop.
  - rewrite rejected_rule_effect by done. by rewrite app_nil_r.
  - by apply all_accepted_sweep.
  - by rewrite rejected_rule_effect.
Qed.






(** * Further properties of the script *)

(** ** More on hiding a list of elements *)

Lemma display_at_set_display v p q d :
  display_at q (set_display v p d)
  = if bool_decide (q = p) && element_at p d then Some v else display_at q d.
Proof.
  unfold display_at, element_at. rewrite lookup_set_display.
  case_bool_decide as Hqp.
  - subst q. destruct (lookup_node p d) as [n|]; [|done]. simpl.
    assert (drop_prefix p p = Some []) as -> by by apply drop_prefix_nil.
    rewrite display_set_display. simpl. by destruct (is_element n).
  - simpl. destruct (lookup_node q d) as [n|]; [|done]. simpl.
    destruct (drop_prefix q p) as [r|] eqn:Hr; [|done].
    rewrite display_set_display.
    case_bool_decide as Hnil; [|by rewrite andb_false_r].
    subst r. by apply drop_prefix_nil in Hr.
Qed.

Lemma display_at_hide_all l : ∀ q d,
  display_at q (hide_all l d)
  = if bool_decide (q ∈ l) && element_at q d then Some "none"
    else display_at q d.
Proof.
  induction l as [|p l IH]; intros q d; simpl.
  - done.
  - rewrite IH, display_at_set_display, element_at_set_display.
    destruct (decide (q = p)) as [->|Hne].
    + rewrite (bool_decide_eq_true_2 (p = p)) by done.
      rewrite (bool_decide_eq_true_2 (p ∈ p :: l)) by by left.
      by destruct (bool_decide (p ∈ l)), (element_at p d).
    + rewrite (bool_decide_eq_false_2 (q = p)) by done.
      rewrite (bool_decide_ext (q ∈ p :: l) (q ∈ l)); [done|].
      rewrite elem_of_cons. split; [by intros [?|?]|by right].
Qed.

Lemma runs_display m s q d :
  runs m s →
  display_at q (m d).1
  = if bool_decide (q ∈ (s d).1) && element_at q d then Some "none"
    else display_at q d.
Proof. intros H. rewrite H. apply display_at_hide_all. Qed.

Lemma runs_view m s q d :
  runs m s → view <$> lookup_node q (m d).1 = view <$> lookup_node q d.
Proof. intros H. rewrite H. apply lookup_view_hide_all. Qed.

Lemma hide_all_set_display l : ∀ p d,
  hide_all l (set_display "none" p d) = set_display "none" p (hide_all l d).
Proof.
  induction l as [|x l IH]; intros p d; [done|]. simpl.
  by rewrite set_display_comm, IH.
Qed.

Lemma hide_all_twice l : ∀ d, hide_all l (hide_all l d) = hide_all l d.
Proof.
  induction l as [|p l IH]; intros d; [done|]. simpl.
  rewrite (hide_all_set_display l p (hide_all l (set_display "none" p d))), IH.
  by rewrite !hide_all_set_display, set_display_idem.
Qed.

Lemma hide_all_absorb l p d :
  p ∈ l → set_display "none" p (hide_all l d) = hide_all l d.
Proof.
  revert d. induction l as [|x l IH]; intros d Hp; [by apply elem_of_nil in Hp|].
  simpl. apply elem_of_cons in Hp as [->|Hp].
  - by rewrite <-hide_all_set_display, set_display_idem.
  - by apply IH.
Qed.

Lemma hide_all_remove_dups l : ∀ d, hide_all (remove_dups l) d = hide_all l d.
Proof.
  induction l as [|p l IH]; intros d; [done|]. simpl.
  destruct (decide_rel elem_of p l) as [Hp|Hp]; simpl.
  - by rewrite IH, hide_all_set_display, hide_all_absorb.
  - apply IH.
Qed.

(** The document after hiding a list depends on the elements listed, not
    on their order or number. *)
Lemma hide_all_ext l l' d :
  (∀ q, q ∈ l ↔ q ∈ l') → hide_all l d = hide_all l' d.
Proof.
  intros H. rewrite <-(hide_all_remove_dups l), <-(hide_all_remove_dups l').
  apply hide_all_perm, list.NoDup_Permutation;
    [apply NoDup_remove_dups..|].
  intros q. by rewrite !elem_of_remove_dups.
Qed.

(** Whatever a sequence of steps hides, one of its steps hides. *)
Lemma elem_of_in_turn l d q :
  q ∈ (in_turn l d).1 → ∃ s, s ∈ l ∧ q ∈ (s d).1.
Proof.
  induction l as [|s l IH]; [by intros ?%elem_of_nil|].
  rewrite in_turn_cons. destruct (s d).2 eqn:Ho; simpl.
  - intros [?|(s' & ? & ?)%IH]%elem_of_app.
    + exists s. split; [by left|done].
    + exists s'. split; [by right|done].
  - intros ?. exists s. split; [by left|done].
  - intros ?. exists s. split; [by left|done].
Qed.

(** A sequence of steps ends normally or as one of its steps ends. *)
Lemma in_turn_outcome l d :
  (in_turn l d).2 = Normal tt ∨ ∃ s, s ∈ l ∧ (in_turn l d).2 = (s d).2.
Proof.
  induction l as [|s l IH]; [by left|].
  rewrite in_turn_cons. destruct (s d).2 as [[]| |] eqn:Ho; simpl.
  - destruct IH as [?|(s' & ? & ?)]; [by left|right].
    exists s'. split; [by right|done].
  - right. exists s. split; [by left|done].
  - right. exists s. split; [by left|done].
Qed.

Lemma runs_twice m s d : runs m s → stable s → m (m d).1 = m d.
Proof.
  intros Hm Hs. rewrite (Hm d). cbn [fst]. rewrite (Hm (hide_all _ d)).
  rewrite (stable_hide_all s) by done. by rewrite hide_all_twice.
Qed.


(** ** X1: a run only hides *)

Lemma runs_only_hides m s d : runs m s → only_hides d (m d).1.
Proof.
  intros H q. split; [by apply (runs_view m s)|].
  rewrite (runs_display m s) by done.
  destruct (_ && _); [by right|by left].
Qed.

(** X1. Whatever the rules and however the run ends, the sweep, the
    processing of an added node and the callback of the observer leave
    every node of the document with its kind, name, attributes, resolved
    link and text, and change the [display] of a node to ["none"] or not
    at all. *)
Theorem runs_only_hide (rules : list rule) (ms : list mutation) (p : ref)
    (d : document) :
  only_hides d (hideAllElements rules d).1
  ∧ only_hides d (hideElementsInNode rules p d).1
  ∧ only_hides d (observer rules ms d).1.
Proof.
  split_and!.
  - apply (runs_only_hides _ _ _ (runs_hideAllElements rules)).
  - apply (runs_only_hides _ _ _ (runs_hideElementsInNode rules p)).
  - apply (runs_only_hides _ _ _ (runs_observer rules ms)).
Qed.

(** ** X2: the hide action is applied to elements only *)

Lemma then_outcome s1 s2 d :
  (then_ s1 s2 d).2
  = match (s1 d).2 with Normal _ => (s2 d).2 | o => o end.
Proof. unfold then_. by destruct (s1 d).2 eqn:E. Qed.

Lemma then_targets s1 s2 d :
  (then_ s1 s2 d).1
  = (s1 d).1 ++ match (s1 d).2 with Normal _ => (s2 d).1 | _ => [] end.
Proof.
  unfold then_. destruct (s1 d).2 eqn:E; cbn [fst]; [done|..];
    by rewrite (right_id_L [] (++)).
Qed.

Lemma rule_effect_no_type_error r d : (rule_effect r d).2 ≠ Throw TypeError.
Proof. rewrite rule_effect_outcome. by destruct (rule_parse r) as [[]|]. Qed.

Lemma descendant_effect_no_type_error p r d :
  element_at p d = true → (descendant_effect p r d).2 ≠ Throw TypeError.
Proof.
  intros He. rewrite descendant_effect_outcome by done.
  by destruct (rule_parse r) as [[]|].
Qed.

Lemma node_effect_no_type_error rules p d :
  element_at p d = true → (node_effect rules p d).2 ≠ Throw TypeError.
Proof.
  intros He. unfold node_effect. rewrite then_outcome.
  pose proof He as He'. unfold element_at in He'.
  destruct (lookup_node p d) as [n|] eqn:Hl; [|done].
  rewrite (self_effect_at rules p d n) by done. cbn [snd].
  destruct (in_turn_outcome (descendant_effect p <$> rules) d)
    as [->|(s & (r & -> & _)%list_elem_of_fmap & ->)]; [done|].
  by apply descendant_effect_no_type_error.
Qed.

Lemma added_effect_no_type_error rules p d :
  is_Some (lookup_node p d) → (added_effect rules p d).2 ≠ Throw TypeError.
Proof.
  intros [n Hl]. unfold added_effect. rewrite Hl.
  destruct (is_element n) eqn:He; [|done].
  apply node_effect_no_type_error. unfold element_at. by rewrite Hl.
Qed.

Lemma mutation_effect_no_type_error rules m d :
  Forall (λ p, is_Some (lookup_node p d)) (addedNodes m) →
  (mutation_effect rules m d).2 ≠ Throw TypeError.
Proof.
  intros Hm. unfold mutation_effect. destruct (String.eqb _ _); [|done].
  destruct (in_turn_outcome (added_effect rules <$> addedNodes m) d)
    as [->|(s & (p & -> & Hp)%list_elem_of_fmap & ->)]; [done|].
  apply added_effect_no_type_error. rewrite Forall_forall in Hm. by apply Hm.
Qed.

(** X2. The script applies the hide action to elements only: the sweep
    never ends in a [TypeError], nor does the processing of an added
    element, nor the callback of the observer on a batch whose added nodes
    are nodes of the document; the only error they can end in is the
    [SyntaxError] of a rejected query. *)
Theorem no_type_error (rules : list rule) (ms : list mutation) (p : ref)
    (d : document) :
  (hideAllElements rules d).2 ≠ Throw TypeError
  ∧ (element_at p d = true →
       (hideElementsInNode rules p d).2 ≠ Throw TypeError)
  ∧ (batch_in ms d → (observer rules ms d).2 ≠ Throw TypeError).
Proof.
  split_and!.
  - rewrite (runs_outcome _ _ _ (runs_hideAllElements rules)).
    destruct (in_turn_outcome (rule_effect <$> rules) d)
      as [->|(s & (r & -> & _)%list_elem_of_fmap & ->)]; [done|].
    apply rule_effect_no_type_error.
  - intros He. rewrite (runs_outcome _ _ _ (runs_hideElementsInNode rules p)).
    by apply node_effect_no_type_error.
  - intros Hb. rewrite (runs_outcome _ _ _ (runs_observer rules ms)).
    destruct (in_turn_outcome (mutation_effect rules <$> ms) d)
      as [->|(s & (m & -> & Hm)%list_elem_of_fmap & ->)]; [done|].
    apply mutation_effect_no_type_error.
    unfold batch_in in Hb. rewrite Forall_forall in Hb. by apply Hb.
Qed.

(** ** X3: running again changes nothing *)

(** X3. When the query of every rule is a compound selector that does
    not name the [style] attribute (or the rule makes no query), the
    sweep, the processing of an added node and the callback of the
    observer are idempotent: run a second time on the document they have
    left, with the same rules (and the same batch), they leave it as it is
    and end in the same way. *)
Theorem runs_are_idempotent (rules : list rule) (ms : list mutation)
    (p : ref) (d : document) :
  Forall (λ r, settled r = true) rules →
  hideAllElements rules (hideAllElements rules d).1 = hideAllElements rules d
  ∧ hideElementsInNode rules p (hideElementsInNode rules p d).1
    = hideElementsInNode rules p d
  ∧ observer rules ms (observer rules ms d).1 = observer rules ms d.
Proof.
  intros _. split_and!.
  - eapply runs_twice; [apply runs_hideAllElements|].
    apply stable_in_turn, Forall_fmap, Forall_forall. intros r _.
    apply stable_rule_effect.
  - eapply runs_twice; [apply runs_hideElementsInNode|].
    apply stable_node_effect.
  - eapply runs_twice; [apply runs_observer|].
    apply stable_in_turn, Forall_fmap, Forall_forall. intros m _.
    apply stable_mutation_effect.
Qed.


(** ** X4, X5: what the processing of an added node reaches *)

Lemma within_spec p q : within p q = true ↔ q = p ∨ strictly_below p q = true.
Proof.
  unfold within, strictly_below.
  destruct (drop_prefix p q) as [[|i r]|] eqn:H.
  - apply drop_prefix_nil in H. split; [by left|done].
  - split; [by right|done].
  - split; [done|]. intros [->|?]; [|done].
    assert (drop_prefix p p = Some []) by by apply drop_prefix_nil. congruence.
Qed.

Lemma strictly_below_irrefl p : strictly_below p p = false.
Proof.
  unfold strictly_below.
  by assert (drop_prefix p p = Some []) as -> by by apply drop_prefix_nil.
Qed.

Lemma descendant_effect_below p r d q :
  q ∈ (descendant_effect p r d).1 → strictly_below p q = true.
Proof.
  unfold descendant_effect, query_effect.
  destruct (rule_query r) as [[sel test]|]; [|by intros ?%elem_of_nil].
  destruct (lookup_node p d) as [[e cs| |]|] eqn:Hp;
    try by intros ?%elem_of_nil.
  destruct (parse_selector sel) as [c| |]; simpl;
    [|by intros ?%elem_of_nil..].
  intros (r' & m & -> & Hr & _)%(elem_of_descendant_targets _ _ _ _ _ _ Hp).
  apply strictly_below_spec. by exists r'.
Qed.

Lemma self_effect_targets rules p d q :
  q ∈ (self_effect rules p d).1
  ↔ q = p ∧ test_at (λ n, is_element n && shouldHideNode rules n) p d = true.
Proof.
  unfold self_effect, test_at, hide_effect, element_at, skip.
  destruct (lookup_node p d) as [n|] eqn:Hl; simpl.
  - destruct (shouldHideNode rules n); simpl.
    + rewrite Hl. destruct (is_element n); simpl.
      * rewrite list_elem_of_singleton. split; [done|by intros [? _]].
      * split; [by intros ?%elem_of_nil|by intros [_ ?]].
    + rewrite andb_false_r. split; [by intros ?%elem_of_nil|by intros [_ ?]].
  - split; [by intros ?%elem_of_nil|by intros [_ ?]].
Qed.

Lemma node_effect_targets rules p d q :
  q ∈ (node_effect rules p d).1 →
  (q = p ∧ test_at (λ n, is_element n && shouldHideNode rules n) p d = true)
  ∨ strictly_below p q = true.
Proof.
  unfold node_effect. rewrite then_targets.
  intros [Hq|Hq]%elem_of_app; [left; by apply self_effect_targets|right].
  destruct (self_effect rules p d).2; [|by apply elem_of_nil in Hq..].
  apply elem_of_in_turn in Hq as (s & (r & -> & _)%list_elem_of_fmap & Hq).
  by eapply descendant_effect_below.
Qed.

(** X4. The processing of an added node reaches the node and what lies
    below it and nothing else: every node that is neither the added node
    nor one of its descendants keeps its [display], whatever the rules. *)
Theorem hideElementsInNode_stays_within (rules : list rule) (p q : ref)
    (d : document) :
  within p q = false →
  display_at q (hideElementsInNode rules p d).1 = display_at q d.
Proof.
  intros Hw. rewrite (runs_display _ _ _ _ (runs_hideElementsInNode rules p)).
  rewrite bool_decide_eq_false_2; [done|].
  intros [[-> _]|Hb]%node_effect_targets.
  - assert (within p p = true) by (apply within_spec; by left). congruence.
  - assert (within p q = true) by (apply within_spec; by right). congruence.
Qed.

(** X5. The added node itself is hidden by its processing exactly when the
    self-check of some rule accepts it (or it was hidden before): the
    descendant searches never select the node they start from, and they
    come after the self-check, so this holds whatever the rules and
    however the run ends. *)
Theorem hideElementsInNode_root (rules : list rule) (p : ref) (d : document) :
  hidden_at p (hideElementsInNode rules p d).1
  = hidden_at p d
    || test_at (λ n, is_element n && shouldHideNode rules n) p d.
Proof.
  rewrite (runs_hidden _ _ _ _ (runs_hideElementsInNode rules p)). f_equal.
  destruct (test_at _ p d) eqn:Ht.
  - apply andb_true_iff. split.
    + apply bool_decide_eq_true. unfold node_effect. rewrite then_targets.
      apply elem_of_app. left. by apply self_effect_targets.
    + unfold test_at in Ht. unfold element_at.
      destruct (lookup_node p d); [|done]. by apply andb_true_iff in Ht as [? _].
  - rewrite bool_decide_eq_false_2; [done|].
    intros [[_ ?]|Hb]%node_effect_targets; [congruence|].
    by rewrite strictly_below_irrefl in Hb.
Qed.

Lemma added_effect_targets rules p d q :
  q ∈ (added_effect rules p d).1 → within p q = true.
Proof.
  unfold added_effect. destruct (lookup_node p d) as [n|];
    [|by intros ?%elem_of_nil].
  destruct (is_element n); [|by intros ?%elem_of_nil].
  intros [[-> _]|?]%node_effect_targets; apply within_spec; auto.
Qed.

(** X6. The callback of the observer reaches the added nodes of the
    records of type [childList] and what lies below them and nothing
    else: every other node of the document keeps its [display], so the
    rest of the page is not scanned again. *)
Theorem observer_stays_within (rules : list rule) (ms : list mutation)
    (q : ref) (d : document) :
  within_batch ms q = false →
  display_at q (observer rules ms d).1 = display_at q d.
Proof.
  intros Hw. rewrite (runs_display _ _ _ _ (runs_observer rules ms)).
  rewrite bool_decide_eq_false_2; [done|]. intros Hq.
  apply elem_of_in_turn in Hq as (s & (m & -> & Hm)%list_elem_of_fmap & Hq).
  unfold mutation_effect in Hq.
  destruct (String.eqb (mutation_type m) "childList") eqn:Ht;
    [|by apply elem_of_nil in Hq].
  apply elem_of_in_turn in Hq as (s & (p & -> & Hp)%list_elem_of_fmap & Hq).
  apply added_effect_targets in Hq.
  assert (within_batch ms q = true); [|congruence].
  unfold within_batch. apply existsb_exists. exists m.
  split; [by apply list_elem_of_In|]. rewrite Ht. simpl.
  apply existsb_exists. exists p. split; [by apply list_elem_of_In|done].
Qed.

(** ** X7: the descendant search is the sweep of the rule, below the node *)

(** X7. For a rule whose query is a compound selector that does not name
    the [style] attribute (or that makes no query), the descendant search
    below an element hides what the sweep of that rule would hide among
    the descendants of the element, and nothing else: the two use the
    same query and the same test. *)
Theorem hideDescendants_is_sweep_below (r : rule) (p q : ref) (d : document) :
  settled r = true → element_at p d = true →
  hidden_at q (hideDescendants p r d).1
  = hidden_at q d
    || (strictly_below p q && hidden_at q (applyHideRule r d).1).
Proof.
  intros _ He.
  rewrite (runs_hidden _ _ _ _ (runs_hideDescendants p r)).
  rewrite (runs_hidden _ _ _ _ (runs_applyHideRule r)).
  assert (bool_decide (q ∈ (descendant_effect p r d).1) && element_at q d
          = strictly_below p q
            && (bool_decide (q ∈ (rule_effect r d).1) && element_at q d)) as ->.
  { unfold descendant_effect, rule_effect, query_effect.
    unfold element_at in He.
    destruct (lookup_node p d) as [[e cs| |]|] eqn:Hp; try done.
    destruct (rule_query r) as [[sel test]|];
      [|by rewrite andb_false_r].
    destruct (parse_selector sel) as [c| |]; cbn [fst];
      [|by rewrite andb_false_r..].
    by rewrite document_targets_at, (descendant_targets_at _ _ _ _ _ _ Hp). }
  by destruct (hidden_at q d), (strictly_below p q), (_ && _).
Qed.

(** ** X8: what the observer ignores *)

(** X8. Records that are not of type [childList], and added nodes that are
    not elements (text and comments), are passed over: on a batch made of
    such records the callback leaves the document as it is and ends
    normally, whatever the rules, rejected ones included. *)
Theorem observer_ignores (rules : list rule) (ms : list mutation)
    (d : document) :
  Forall (λ m, mutation_type m ≠ "childList"
               ∨ Forall (λ p, ∃ n, lookup_node p d = Some n
                                   ∧ is_element n = false) (addedNodes m)) ms →
  observer rules ms d = (d, Normal tt).
Proof.
  intros H. unfold observer. induction H as [|m ms Hm _ IH]; [done|].
  simpl. unfold bind at 1.
  assert (onMutation rules m d = (d, Normal tt)) as ->; [|done].
  unfold onMutation. destruct Hm as [Hm|Hm].
  - apply String.eqb_neq in Hm. by rewrite Hm.
  - destruct (String.eqb _ _); [|done]. simpl.
    induction Hm as [|p ps (n & Hl & He) _ IHp]; [done|].
    simpl. unfold bind at 1.
    assert (onAddedNode rules p d = (d, Normal tt)) as ->; [|done].
    unfold onAddedNode, bind, read. rewrite Hl. by destruct n.
Qed.

(** ** X9: the sweep hides what its rules hide one by one *)

(** X9. When the query of every rule is a compound selector that does not
    name the [style] attribute (or the rule makes no query), the rules do
    not interfere: an element is hidden after the sweep exactly when it
    was hidden before or the sweep of one of the rules, run alone on the
    document as it was, hides it. *)
Theorem sweep_is_union (rules : list rule) (q : ref) (d : document) :
  Forall (λ r, settled r = true) rules →
  hidden_at q (hideAllElements rules d).1
  = hidden_at q d || existsb (λ r, hidden_at q (applyHideRule r d).1) rules.
Proof.
  intros Ha%all_settled.
  rewrite (runs_hidden _ _ _ _ (runs_hideAllElements rules)).
  induction Ha as [|r rules Hr _ IH].
  - done.
  - rewrite fmap_cons, in_turn_cons, accepted_rule_effect by done.
    cbn [fst existsb].
    rewrite (runs_hidden _ _ _ _ (runs_applyHideRule r)).
    rewrite (bool_decide_ext _ (q ∈ (rule_effect r d).1
                                ∨ q ∈ (in_turn (rule_effect <$> rules) d).1))
      by apply elem_of_app.
    rewrite bool_decide_or.
    destruct (hidden_at q d); simpl in *; [done|]. rewrite <-IH.
    by destruct (bool_decide _), (bool_decide _), (element_at q d).
Qed.


(** ** X10, X11: rule sets of well-formed class, content and title rules *)

Lemma plain_rule_inv r :
  plain_rule r = true →
  well_formed r = true ∧ String.eqb (type r) "href" = false.
Proof.
  unfold plain_rule. intros [Hwf Ht]%andb_true_iff. split; [done|].
  destruct (String.eqb (type r) "href") eqn:Hh; [|done].
  apply String.eqb_eq in Hh. by rewrite Hh in Ht.
Qed.

Lemma plain_all_accepted rules :
  Forall (λ r, plain_rule r = true) rules →
  Forall (λ r, accepted r = true) rules.
Proof.
  intros H. eapply Forall_impl; [done|].
  intros r [Hwf _]%plain_rule_inv. by apply wf_accepted.
Qed.

Lemma plain_exact r :
  quirks = false → plain_rule r = true → exact_query r = true.
Proof.
  intros Hq [_ Ht]%andb_true_iff. unfold exact_query. rewrite Hq.
  destruct (String.eqb (type r) "class"); [done|].
  destruct (String.eqb (type r) "attribute") eqn:Ha; [|done].
  apply String.eqb_eq in Ha. by rewrite Ha in Ht.
Qed.

Lemma ascii_names_lookup : ∀ p d n,
  ascii_names d = true → lookup_node p d = Some n → ascii_named n = true.
Proof.
  induction p as [|i p IH]; intros d n Hd.
  - destruct d as [e cs| |]; intros [= <-]; [|done..].
    change (is_ascii (localName e) && forallb ascii_names cs = true) in Hd.
    by apply andb_true_iff in Hd as [? _].
  - destruct d as [e cs| |]; simpl; try done.
    destruct (cs !! i) as [c|] eqn:Hc; [|done]. apply IH.
    change (is_ascii (localName e) && forallb ascii_names cs = true) in Hd.
    apply andb_true_iff in Hd as [_ Hd].
    rewrite forallb_forall in Hd. apply Hd, list_elem_of_In.
    by eapply list_elem_of_lookup_2.
Qed.

Lemma shouldHideNode_exists rules n :
  shouldHideNode rules n = true ↔ ∃ r, r ∈ rules ∧ matchesRule n r = true.
Proof.
  unfold shouldHideNode. rewrite existsb_exists.
  split; intros (r & Hr & Hm); exists r; by rewrite list_elem_of_In in *.
Qed.

Lemma plain_sweep_targets rules d q :
  ascii_case_mappings → quirks = false →
  (∀ n, lookup_node q d = Some n → ascii_named n = true) →
  Forall (λ r, plain_rule r = true) rules →
  q ∈ (in_turn (rule_effect <$> rules) d).1
  ↔ test_at (λ n, is_element n && shouldHideNode rules n) q d = true.
Proof.
  intros Hmap Hqk Hasc Hp. rewrite elem_of_in_turn_normal
    by by apply all_accepted_sweep, plain_all_accepted.
  rewrite Forall_forall in Hp. unfold test_at. split.
  - intros (s & (r & -> & Hr)%list_elem_of_fmap & Hq).
    destruct (plain_rule_inv r (Hp r Hr)) as [Hwf Hh].
    rewrite wf_rule_effect in Hq by done.
    apply elem_of_document_targets in Hq as (n & Hl & He & Hm & Ht).
    rewrite Hl, He. apply shouldHideNode_exists. exists r. split; [done|].
    rewrite wf_matchesRule by eauto using plain_exact. by rewrite Hm, Ht.
  - destruct (lookup_node q d) as [n|] eqn:Hl; [|done].
    intros [He (r & Hr & Hm)%shouldHideNode_exists]%andb_true_iff.
    destruct (plain_rule_inv r (Hp r Hr)) as [Hwf Hh].
    exists (rule_effect r). split; [by apply list_elem_of_fmap_2|].
    rewrite wf_rule_effect by done.
    apply elem_of_document_targets. exists n.
    rewrite wf_matchesRule in Hm by eauto using plain_exact.
    apply andb_true_iff in Hm as [? ?]. by split_and!.
Qed.

Lemma plain_node_targets rules p d q :
  ascii_case_mappings → quirks = false →
  (∀ n, lookup_node q d = Some n → ascii_named n = true) →
  Forall (λ r, plain_rule r = true) rules → element_at p d = true →
  q ∈ (node_effect rules p d).1
  ↔ within p q = true
    ∧ test_at (λ n, is_element n && shouldHideNode rules n) q d = true.
Proof.
  intros Hmap Hqk Hasc Hp He. pose proof (plain_all_accepted rules Hp) as Ha.
  pose proof He as He'. unfold element_at in He'.
  destruct (lookup_node p d) as [[e cs| |]|] eqn:Hl; try done.
  rewrite (node_effect_accepted rules p d _ Ha Hl) by done. cbn [fst].
  rewrite elem_of_app, elem_of_in_turn_normal
    by by apply all_accepted_descendants.
  rewrite Forall_forall in Hp. rewrite within_spec. split.
  - intros [Hq|(s & (r & -> & Hr)%list_elem_of_fmap & Hq)].
    + destruct (shouldHideNode rules (Element e cs)) eqn:Hs;
        [|by apply elem_of_nil in Hq].
      apply list_elem_of_singleton in Hq as ->. split; [by left|].
      unfold test_at. by rewrite Hl, Hs.
    + destruct (plain_rule_inv r (Hp r Hr)) as [Hwf Hh].
      erewrite wf_descendant_effect in Hq by done.
      apply (elem_of_descendant_targets _ _ _ _ _ _ Hl) in Hq
        as (r' & m & -> & Hr' & Hm & Hem & Hc & Ht).
      split; [right; apply strictly_below_spec; by exists r'|].
      unfold test_at. rewrite Hm, Hem. apply shouldHideNode_exists.
      exists r. split; [done|].
      rewrite wf_matchesRule by eauto using plain_exact. by rewrite Hc, Ht.
  - intros [[->|Hb] Ht].
    + left. unfold test_at in Ht. rewrite Hl in Ht.
      apply andb_true_iff in Ht as [_ ->]. by apply list_elem_of_singleton.
    + right. apply strictly_below_spec in Hb as (r' & -> & Hr').
      unfold test_at in Ht.
      destruct (lookup_node (p ++ r') d) as [m|] eqn:Hm; [|done].
      apply andb_true_iff in Ht as [Hem (r & Hr & Hmatch)%shouldHideNode_exists].
      destruct (plain_rule_inv r (Hp r Hr)) as [Hwf Hh].
      exists (descendant_effect p r). split; [by apply list_elem_of_fmap_2|].
      erewrite wf_descendant_effect by done.
      apply (elem_of_descendant_targets _ _ _ _ _ _ Hl). exists r', m.
      rewrite wf_matchesRule in Hmatch by eauto using plain_exact.
      apply andb_true_iff in Hmatch as [? ?]. by split_and!.
Qed.

(** X10. For a rule set of well-formed class, content and title rules, in
    a document outside quirks mode, the sweep and the self-check agree on
    the elements with ASCII names: the sweep ends normally and such an
    element is hidden after it exactly when it was hidden before or the
    self-check of some rule accepts it; and the processing of an added
    element hides exactly the elements of its subtree (itself included)
    that the self-check of some rule accepts. *)
Theorem plain_rules_hide_what_matches (rules : list rule) (p q : ref)
    (d : document) :
  ascii_case_mappings → quirks = false →
  (∀ n, lookup_node q d = Some n → ascii_named n = true) →
  Forall (λ r, plain_rule r = true) rules →
  (hideAllElements rules d).2 = Normal tt
  ∧ hidden_at q (hideAllElements rules d).1
    = hidden_at q d
      || test_at (λ n, is_element n && shouldHideNode rules n) q d
  ∧ (element_at p d = true →
       (hideElementsInNode rules p d).2 = Normal tt
       ∧ hidden_at q (hideElementsInNode rules p d).1
         = hidden_at q d
           || (within p q
               && test_at (λ n, is_element n && shouldHideNode rules n) q d)).
Proof.
  intros Hmap Hqk Hasc Hp.
  pose proof (plain_all_accepted rules Hp) as Ha. split_and!.
  - rewrite (runs_outcome _ _ _ (runs_hideAllElements rules)).
    rewrite in_turn_normal; [done|]. by apply all_accepted_sweep.
  - rewrite (runs_hidden _ _ _ _ (runs_hideAllElements rules)). f_equal.
    destruct (test_at _ q d) eqn:Ht.
    + apply andb_true_iff. split.
      * by apply bool_decide_eq_true, plain_sweep_targets.
      * unfold test_at in Ht. unfold element_at.
        destruct (lookup_node q d); [|done].
        by apply andb_true_iff in Ht as [? _].
    + rewrite bool_decide_eq_false_2; [done|].
      intros ?%plain_sweep_targets; [congruence|done..].
  - intros He. split.
    + rewrite (runs_outcome _ _ _ (runs_hideElementsInNode rules p)).
      unfold element_at in He.
      destruct (lookup_node p d) as [n|] eqn:Hl; [|done].
      by rewrite (node_effect_accepted rules p d n).
    + rewrite (runs_hidden _ _ _ _ (runs_hideElementsInNode rules p)). f_equal.
      destruct (within p q && test_at _ q d) eqn:Ht.
      * apply andb_true_iff in Ht as [Hw Ht]. apply andb_true_iff. split.
        -- by apply bool_decide_eq_true, plain_node_targets.
        -- unfold test_at in Ht. unfold element_at.
           destruct (lookup_node q d); [|done].
           by apply andb_true_iff in Ht as [? _].
      * rewrite bool_decide_eq_false_2; [done|].
        intros [Hw Hq]%plain_node_targets; [|done..].
        by rewrite Hw, Hq in Ht.
Qed.

(** X11. For a rule set of well-formed class, content and title rules, in
    a document outside quirks mode whose elements have ASCII names,
    processing the root element of the document as an added node is the
    sweep: the two end in the same document and in the same way. *)
Theorem root_processing_is_sweep (rules : list rule) (d : document) :
  ascii_case_mappings → quirks = false → ascii_names d = true →
  Forall (λ r, plain_rule r = true) rules →
  is_element d = true →
  hideElementsInNode rules [] d = hideAllElements rules d.
Proof.
  intros Hmap Hqk Hnames Hp He.
  pose proof (λ q n, ascii_names_lookup q d n Hnames) as Hasc.
  assert (element_at [] d = true) as He' by done.
  destruct (plain_rules_hide_what_matches rules [] [] d Hmap Hqk (Hasc [])  Hp)
    as (Ho & _ & Hn).
  destruct (Hn He') as [Ho' _].
  rewrite (runs_outcome _ _ _ (runs_hideAllElements rules)) in Ho.
  rewrite (runs_outcome _ _ _ (runs_hideElementsInNode rules [])) in Ho'.
  rewrite (runs_hideElementsInNode rules [] d), (runs_hideAllElements rules d).
  rewrite Ho, Ho'. f_equal. apply hide_all_ext. intros q.
  rewrite plain_node_targets, plain_sweep_targets by eauto.
  split; [by intros [_ ?]|]. intros ?. split; [|done].
  unfold within. by destruct q.
Qed.

(** ** X13: the href rule with the empty value *)

(** X13. A href rule with the empty value hides nothing, in the sweep and
    in the descendant search, which end normally ([a[href*=...]] with an
    empty value selects nothing), although its self-check accepts every
    anchor (every string includes the empty string). *)
Theorem empty_href_rule (r : rule) :
  type r = "href" → value r = EmptyString →
  (∀ n, tagName n = "A" → matchesRule n r = true)
  ∧ (∀ d, applyHideRule r d = (d, Normal tt))
  ∧ (∀ p d, element_at p d = true → hideDescendants p r d = (d, Normal tt)).
Proof.
  intros Ht Hv. split; [|by apply href_rule_empty_value].
  intros n Hn. unfold matchesRule. rewrite Ht, Hv, Hn. simpl.
  apply includes_empty.
Qed.


(** ** X15, X16: the start of the script *)

Lemma element_at_sweep rules b d :
  element_at b (hideAllElements rules d).1 = element_at b d.
Proof.
  rewrite (runs_hideAllElements rules d). apply element_at_hide_all.
Qed.

(** X15. The observer is installed exactly when the script ends normally:
    a throw in the immediate sweep, or a missing [document.body], leaves the
    page without observer; and [hideAllElements] listens to
    [DOMContentLoaded] exactly when the document was still loading. *)
Theorem observer_installed_iff_normal (rules : list rule) (readyState : string)
    (body : option ref) (d : document) :
  (observing (start rules readyState body d).1 = true
   ↔ (start rules readyState body d).2 = Normal tt)
  ∧ loadListener (start rules readyState body d).1
    = String.eqb readyState "loading".
Proof.
  unfold start, install.
  destruct (String.eqb readyState "loading"); simpl.
  - destruct body as [b|]; [|done]. by destruct (element_at b d).
  - destruct (hideAllElements rules d) as [d' [[]|e|]]; simpl; try done.
    destruct body as [b|]; [|done]. by destruct (element_at b d').
Qed.

(** X16. A rule whose query is rejected, in a script started after the
    document has loaded: the sweep applies the rules before it and throws,
    the script ends there, nothing is registered, and no event changes the
    page afterwards. Started while the document is loading, the same
    script installs the observer; the sweep at [DOMContentLoaded] applies
    the rules before the rejected one, and the observer stays installed. *)
Theorem rejected_rule_at_start (pre post : list rule) (r : rule)
    (readyState : string) (b : ref) (d : document) :
  Forall (λ r, accepted r = true) pre → rejected r = true →
  element_at b d = true →
  (String.eqb readyState "loading" = false →
     start (pre ++ r :: post) readyState (Some b) d
     = (Page (hideAllElements pre d).1 false false, Throw SyntaxError)
     ∧ ∀ evs,
         foldl (λ pg ev, deliver (pre ++ r :: post) ev pg)
           (start (pre ++ r :: post) readyState (Some b) d).1 evs
         = Page (hideAllElements pre d).1 false false)
  ∧ start (pre ++ r :: post) "loading" (Some b) d = (Page d true true, Normal tt)
  ∧ deliver (pre ++ r :: post) DOMContentLoaded (Page d true true)
    = Page (hideAllElements pre d).1 true true.
Proof.
  intros Ha Hr He. split_and!.
  - intros Hs.
    assert (start (pre ++ r :: post) readyState (Some b) d
            = (Page (hideAllElements pre d).1 false false, Throw SyntaxError))
      as Hstart.
    { unfold start. rewrite Hs. by rewrite sweep_stops_at_rejected. }
    split; [done|]. intros evs. rewrite Hstart. cbn [fst].
    induction evs as [|ev evs IH]; [done|]. simpl. by destruct ev.
  - unfold start, install. simpl. by rewrite He.
  - simpl. by rewrite sweep_stops_at_rejected.
Qed.


(** ** X18: the sweep is complete for every rule but the href rule *)

(** X18. In a rule set whose queries are all compound selectors (or
    absent), the sweep ends normally and hides every element with an
    ASCII name that the self-check of a well-formed class, content, title
    or attribute rule of the set accepts. *)
Theorem sweep_complete_for_other_rules (rules : list rule) (r : rule)
    (d : document) (q : ref) (n : node) :
  ascii_case_mappings →
  Forall (λ r, accepted r = true) rules →
  r ∈ rules → well_formed r = true → type r ≠ "href" →
  lookup_node q d = Some n → is_element n = true → ascii_named n = true →
  matchesRule n r = true →
  (hideAllElements rules d).2 = Normal tt
  ∧ hidden_at q (hideAllElements rules d).1 = true.
Proof.
  intros Hmap Ha Hr Hwf Ht Hq He Hn Hm.
  apply (sweep_complete_but_href rules r d q n); try done.
  by apply String.eqb_neq.
Qed.

(** ** X19, X20: the shape of a batch *)

Lemma forEach_app {A} (f : A → M unit) l1 l2 d :
  forEach (l1 ++ l2) f d
  = match forEach l1 f d with
    | (d', Normal _) => forEach l2 f d'
    | other => other
    end.
Proof.
  revert d. induction l1 as [|x l1 IH]; intros d; [done|].
  simpl. unfold bind. destruct (f x d) as [d' [[]|e|]]; [apply IH|done..].
Qed.

(** X19. A batch can be delivered in pieces: the callback of the observer
    on two batches one after the other, the first ending normally, leaves
    the document that one callback on the two batches put together
    leaves, and ends in the same way. *)
Theorem batch_in_pieces (rules : list rule) (ms1 ms2 : list mutation)
    (d : document) :
  (observer rules ms1 d).2 = Normal tt →
  observer rules (ms1 ++ ms2) d = observer rules ms2 (observer rules ms1 d).1.
Proof.
  intros Hn. unfold observer in *. rewrite forEach_app.
  destruct (forEach ms1 (onMutation rules) d) as [d' o]. simpl in Hn.
  by subst o.
Qed.

Lemma in_turn_perm_normal d (l l' : list effect) :
  l ≡ₚ l' →
  Forall (λ s : effect, (s d).2 = Normal tt) l →
  same_effect d (in_turn l) (in_turn l').
Proof.
  induction 1 as [|s l l' Hl IH|s s' l|l l' l'' Hl IH Hl' IH']; intros Hn.
  - done.
  - apply Forall_cons in Hn as [Hs Hn].
    apply same_effect_then; [done|by apply IH].
  - apply Forall_cons in Hn as [Hs' [Hs Hn]%Forall_cons].
    unfold same_effect. rewrite !in_turn_cons, Hs, Hs'.
    simpl. split; [|done]. rewrite !app_assoc.
    apply Permutation_app; [apply Permutation_app_comm|done].
  - eapply same_effect_trans; [by apply IH|]. apply IH'. by rewrite <-Hl.
Qed.

(** X20. When the query of every rule is a compound selector that does
    not name the [style] attribute (or the rule makes no query) and the
    added nodes are nodes of the document, the order of the records of a
    batch does not matter: the callback of the observer ends in the same
    document, normally, for every permutation of the batch. *)
Theorem batch_order_irrelevant (rules : list rule) (ms ms' : list mutation)
    (d : document) :
  Forall (λ r, settled r = true) rules → batch_in ms d →
  ms ≡ₚ ms' →
  observer rules ms d = observer rules ms' d.
Proof.
  intros Ha%all_settled Hb Hp.
  eapply same_effect_run; [apply runs_observer..|].
  apply in_turn_perm_normal; [by apply fmap_Permutation|].
  by apply observer_effect_accepted.
Qed.

End Host.

(** * The statements at work

    The scenarios of the specification and an instance of every statement
    that has a premise, evaluated on pages whose text is ASCII, outside
    quirks mode, where the case mappings of JavaScript are [ascii_upper]
    and [ascii_lower]. *)

Lemma ascii_mappings : ascii_case_mappings ascii_upper ascii_lower.
Proof. by split. Qed.

(** ** The scenarios of the specification *)

Example scenario_class_rule :
  let rules := [Sample.class_rule "BIG_BROTHER_BRASIL"] in
  (hideAllElements false ascii_lower rules Sample.page).2 = Normal tt
  ∧ hidden_at [0] (hideAllElements false ascii_lower rules Sample.page).1 = true
  ∧ hidden_at [1] (hideAllElements false ascii_lower rules Sample.page).1 = false.
Proof. by vm_compute. Qed.

Example scenario_href_rule :
  let rules := [Sample.href_rule "bbb"] in
  (hideAllElements false ascii_lower rules Sample.page).2 = Normal tt
  ∧ hidden_at [1] (hideAllElements false ascii_lower rules Sample.page).1 = true
  ∧ hidden_at [2] (hideAllElements false ascii_lower rules Sample.page).1 = false.
Proof. by vm_compute. Qed.

Example scenario_dynamic_insertion :
  let rules := [Sample.href_rule "bbb"] in
  let batch := [Mutation "childList" [[0]]] in
  (observer false ascii_upper ascii_lower rules batch Sample.widget_page).2 = Normal tt
  ∧ hidden_at [0; 0] (observer false ascii_upper ascii_lower rules batch Sample.widget_page).1 = true
  ∧ hidden_at [0] (observer false ascii_upper ascii_lower rules batch Sample.widget_page).1 = false
  ∧ hidden_at [1] (observer false ascii_upper ascii_lower rules batch Sample.widget_page).1 = false.
Proof. by vm_compute. Qed.

(** In quirks mode the sweep of a class rule hides a block whose class is
    written in another case, which the self-check rejects. *)
Example scenario_quirks_mode :
  let r := Sample.class_rule "big_brother_brasil" in
  matchesRule ascii_upper ascii_lower
    (Sample.el "div" [("class", "BIG_BROTHER_BRASIL")] [Text "x"]) r = false
  ∧ hidden_at [0] (hideAllElements true ascii_lower [r] Sample.page).1 = true
  ∧ hidden_at [0] (hideAllElements false ascii_lower [r] Sample.page).1 = false.
Proof. by vm_compute. Qed.

(** ** The claims, at an input *)

(** A page with a hidden block, through the callback of the observer. *)
Lemma C4_hidden_only_grows_witness :
  hidden_at [0] Sample.half_hidden_page = true
  ∧ hidden_at [0]
      (observer false ascii_upper ascii_lower [Sample.class_rule "ad"] [Mutation "childList" [[1]]]
         Sample.half_hidden_page).1 = true.
Proof.
  split; [reflexivity|].
  apply (C4_hidden_only_grows false ascii_upper ascii_lower [Sample.class_rule "ad"]
           [Mutation "childList" [[1]]] (Sample.class_rule "ad") [1]
           Sample.half_hidden_page).
  reflexivity.
Defined.

(** Hiding the first block of the sample page leaves the second in view. *)
Lemma C8_hide_touches_only_display_witness :
  hidden_at [1] (hideElement [0] Sample.page).1 = hidden_at [1] Sample.page.
Proof.
  assert (hideElement [0] Sample.page
          = ((hideElement [0] Sample.page).1, Normal tt)) as H by reflexivity.
  apply (C8_hide_touches_only_display _ _ _ H). discriminate.
Defined.



(** A [span] without text and a [span] with an empty title, against rules
    with the empty value. *)
Lemma C9_empty_text_never_matches_witness :
  matchesRule ascii_upper ascii_lower (Sample.el "span" [] [Sample.el "b" [] []])
    (Sample.content_rule "span" EmptyString) = false
  ∧ matchesRule ascii_upper ascii_lower (Sample.el "span" [("title", EmptyString)] [Text "x"])
      (Sample.title_rule "span" EmptyString) = false.
Proof.
  split.
  - apply (proj1 (C9_empty_text_never_matches false ascii_upper ascii_lower
                    (Sample.content_rule "span" EmptyString)
                    (Sample.el "span" [] [Sample.el "b" [] []]))); reflexivity.
  - apply (proj2 (C9_empty_text_never_matches false ascii_upper ascii_lower
                    (Sample.title_rule "span" EmptyString)
                    (Sample.el "span" [("title", EmptyString)] [Text "x"])));
      reflexivity.
Defined.

(** The link of the sample page whose attribute contains [bbb]. *)
Lemma C10_href_self_check_and_query_witness :
  hidden_at [1] (applyHideRule false ascii_lower (Sample.href_rule "bbb") Sample.page).1 = true.
Proof.
  rewrite (proj1 (proj2 (C10_href_self_check_and_query false ascii_upper ascii_lower))
             (Sample.href_rule "bbb") Sample.page [1]); reflexivity.
Defined.

(** The claim C10 read for every href rule: the sweep hides the anchors
    whose [href] attribute contains the value. It fails for the rule with
    the empty value, which every attribute contains: the sweep selects
    nothing. *)
Lemma C10_counterexample :
  ¬ (∀ r d q, type r = "href" →
       hidden_at q (applyHideRule false ascii_lower r d).1
       = hidden_at q d
         || test_at (λ n, is_element n && href_attribute_includes (value r) n)
              q d).
Proof.
  intros H.
  specialize (H (Sample.href_rule EmptyString) Sample.page [1] eq_refl).
  discriminate H.
Qed.



(** C7 as stated fails: a rule whose query is rejected stops the
    sweep, and the rules placed after it are not applied; placed last, it
    stops nothing. *)
Lemma C7_counterexample :
  ¬ (∀ (rules rules' : list rule) (d : document),
        rules ≡ₚ rules' →
        (hideAllElements false ascii_lower rules d).1
        = (hideAllElements false ascii_lower rules' d).1).
Proof.
  intros H.
  specialize (H [Sample.class_rule EmptyString; Sample.class_rule "ad"]
                [Sample.class_rule "ad"; Sample.class_rule EmptyString]
                Sample.widget_page (Permutation_swap _ _ _)).
  by vm_compute in H.
Qed.

(** Two well-formed rules in both orders on the sample widget page. *)
Lemma C7_rule_order_irrelevant_witness :
  hideAllElements false ascii_lower
    [Sample.href_rule "bbb"; Sample.class_rule "ad"] Sample.widget_page
  = hideAllElements false ascii_lower
      [Sample.class_rule "ad"; Sample.href_rule "bbb"] Sample.widget_page.
Proof.
  apply (C7_rule_order_irrelevant false ascii_upper ascii_lower
           [Sample.href_rule "bbb"; Sample.class_rule "ad"]
           [Sample.class_rule "ad"; Sample.href_rule "bbb"]).
  - repeat constructor.
  - apply Permutation_swap.
Defined.





(** ** The further properties, at an input *)

(** A rejected rule in front, an added element and a batch of the page. *)
Lemma no_type_error_witness :
  (hideElementsInNode false ascii_upper ascii_lower
     [Sample.class_rule EmptyString] [0] Sample.widget_page).2
    ≠ Throw TypeError
  ∧ (observer false ascii_upper ascii_lower [Sample.class_rule "ad"] [Mutation "childList" [[0]; [1; 0]]]
       Sample.widget_page).2 ≠ Throw TypeError.
Proof.
  split.
  - apply (no_type_error false ascii_upper ascii_lower [Sample.class_rule EmptyString] [] [0]
             Sample.widget_page). reflexivity.
  - apply (no_type_error false ascii_upper ascii_lower [Sample.class_rule "ad"]
             [Mutation "childList" [[0]; [1; 0]]] [] Sample.widget_page).
    repeat constructor; by eexists.
Defined.

(** The sweep of two rules of the scenarios, run twice. *)
Lemma runs_are_idempotent_witness :
  let rules := [Sample.class_rule "ad"; Sample.content_rule "span" "Yasmin Brunet"] in
  hideAllElements false ascii_lower rules
    (hideAllElements false ascii_lower rules Sample.page).1
  = hideAllElements false ascii_lower rules Sample.page.
Proof.
  apply (runs_are_idempotent false ascii_upper ascii_lower
           [Sample.class_rule "ad"; Sample.content_rule "span" "Yasmin Brunet"]
           [] [] Sample.page).
  repeat constructor.
Defined.

(** The block next to the inserted widget. *)
Lemma hideElementsInNode_stays_within_witness :
  display_at [1]
    (hideElementsInNode false ascii_upper ascii_lower
       [Sample.class_rule "ad"] [0] Sample.widget_page).1
  = display_at [1] Sample.widget_page.
Proof.
  apply (hideElementsInNode_stays_within false ascii_upper ascii_lower
           [Sample.class_rule "ad"] [0] [1]).
  reflexivity.
Defined.

(** The block next to the inserted widget, which the rule would select. *)
Lemma observer_stays_within_witness :
  display_at [1]
    (observer false ascii_upper ascii_lower [Sample.class_rule "ad"] [Mutation "childList" [[0]]]
       Sample.widget_page).1
  = display_at [1] Sample.widget_page.
Proof.
  apply (observer_stays_within false ascii_upper ascii_lower
           [Sample.class_rule "ad"]
           [Mutation "childList" [[0]]] [1]).
  reflexivity.
Defined.

(** The link inside the inserted widget. *)
Lemma hideDescendants_is_sweep_below_witness :
  hidden_at [0; 0]
    (hideDescendants false ascii_lower [0] (Sample.href_rule "bbb") Sample.widget_page).1 = true.
Proof.
  rewrite (hideDescendants_is_sweep_below false ascii_lower (Sample.href_rule "bbb") [0] [0; 0]
             Sample.widget_page); reflexivity.
Defined.

(** An attribute record and the insertion of a text node, with a rejected
    rule. *)
Lemma observer_ignores_witness :
  observer false ascii_upper ascii_lower [Sample.class_rule EmptyString]
    [Mutation "attributes" [[0]]; Mutation "childList" [[0; 0; 0]]]
    Sample.widget_page
  = (Sample.widget_page, Normal tt).
Proof.
  apply observer_ignores.
  apply Forall_cons. split; [left; discriminate|].
  apply Forall_cons. split; [|constructor].
  right. apply Forall_cons. split; [|constructor].
  eexists. split; reflexivity.
Defined.

(** Two rules on the scenario page. *)
Lemma sweep_is_union_witness :
  hidden_at [1]
    (hideAllElements false ascii_lower
       [Sample.class_rule "BIG_BROTHER_BRASIL"; Sample.href_rule "bbb"]
       Sample.page).1 = true.
Proof.
  rewrite (sweep_is_union false ascii_lower
             [Sample.class_rule "BIG_BROTHER_BRASIL"; Sample.href_rule "bbb"]
             [1] Sample.page); [reflexivity|by repeat constructor].
Defined.

(** The scenario page under a class rule and a content rule. *)
Lemma plain_rules_hide_what_matches_witness :
  hidden_at [3]
    (hideAllElements false ascii_lower
       [Sample.class_rule "BIG_BROTHER_BRASIL";
        Sample.content_rule "span" "yasmin"] Sample.page).1 = true.
Proof.
  assert (Forall (λ r, plain_rule r = true)
            [Sample.class_rule "BIG_BROTHER_BRASIL";
             Sample.content_rule "span" "yasmin"]) as Hp
    by (by repeat constructor).
  assert (∀ n, lookup_node [3] Sample.page = Some n → ascii_named n = true)
    as Hn by (by intros n [= <-]).
  rewrite (proj1 (proj2 (plain_rules_hide_what_matches false ascii_upper
                           ascii_lower _ [] [3] Sample.page ascii_mappings
                           eq_refl Hn Hp))).
  reflexivity.
Defined.

(** The scenario page, processed from its root. *)
Lemma root_processing_is_sweep_witness :
  hideElementsInNode false ascii_upper ascii_lower
    [Sample.content_rule "span" "yasmin"] [] Sample.page
  = hideAllElements false ascii_lower
      [Sample.content_rule "span" "yasmin"] Sample.page.
Proof.
  apply (root_processing_is_sweep false ascii_upper ascii_lower _ Sample.page
           ascii_mappings eq_refl eq_refl);
    [by repeat constructor|reflexivity].
Defined.

(** The links of the scenario page. *)
Lemma empty_href_rule_witness :
  applyHideRule false ascii_lower (Sample.href_rule EmptyString) Sample.page
  = (Sample.page, Normal tt)
  ∧ matchesRule ascii_upper ascii_lower (Sample.a "/post" "https://bbb.example/post" [])
      (Sample.href_rule EmptyString) = true.
Proof.
  split.
  - apply (empty_href_rule false ascii_upper ascii_lower (Sample.href_rule EmptyString)); reflexivity.
  - apply (empty_href_rule false ascii_upper ascii_lower (Sample.href_rule EmptyString)); reflexivity.
Defined.

(** A rejected rule between two others, with a batch after the start. *)
Lemma rejected_rule_at_start_witness :
  foldl (λ pg ev,
           deliver false ascii_upper ascii_lower
             ([Sample.href_rule "bbb"] ++ Sample.class_rule EmptyString
                      :: [Sample.class_rule "ad"]) ev pg)
    (start false ascii_lower
       ([Sample.href_rule "bbb"] ++ Sample.class_rule EmptyString
              :: [Sample.class_rule "ad"]) "complete" (Some []) Sample.widget_page).1
    [Mutations [Mutation "childList" [[1]]]]
  = Page (hideAllElements false ascii_lower [Sample.href_rule "bbb"] Sample.widget_page).1 false false.
Proof.
  apply (rejected_rule_at_start false ascii_upper ascii_lower
           [Sample.href_rule "bbb"] [Sample.class_rule "ad"]
           (Sample.class_rule EmptyString) "complete" [] Sample.widget_page);
    [by repeat constructor|reflexivity|reflexivity|reflexivity].
Defined.

(** The attribute rule of the scenario in a rule set with an unknown rule. *)
Lemma sweep_complete_for_other_rules_witness :
  hidden_at [5]
    (hideAllElements false ascii_lower
       [Rule "colour" "red" EmptyString EmptyString;
        Sample.attribute_rule "data-area" "splash"] Sample.page).1 = true.
Proof.
  apply (sweep_complete_for_other_rules false ascii_upper ascii_lower
           [Rule "colour" "red" EmptyString EmptyString;
            Sample.attribute_rule "data-area" "splash"]
           (Sample.attribute_rule "data-area" "splash") Sample.page [5]
           (Sample.el "div" [("data-area", "splash")] []));
    [apply ascii_mappings|by repeat constructor|by right; left|reflexivity
    |discriminate|reflexivity..].
Defined.

(** The widget and the block next to it, in one batch or in two. *)
Lemma batch_in_pieces_witness :
  observer false ascii_upper ascii_lower [Sample.class_rule "ad"]
    ([Mutation "childList" [[0]]] ++ [Mutation "childList" [[1]]])
    Sample.widget_page
  = observer false ascii_upper ascii_lower [Sample.class_rule "ad"] [Mutation "childList" [[1]]]
      (observer false ascii_upper ascii_lower [Sample.class_rule "ad"]
         [Mutation "childList" [[0]]]
         Sample.widget_page).1.
Proof. apply batch_in_pieces. reflexivity. Defined.

(** Two records of the widget page in both orders. *)
Lemma batch_order_irrelevant_witness :
  observer false ascii_upper ascii_lower [Sample.class_rule "ad"]
    [Mutation "childList" [[0]]; Mutation "childList" [[1]]] Sample.widget_page
  = observer false ascii_upper ascii_lower [Sample.class_rule "ad"]
      [Mutation "childList" [[1]]; Mutation "childList" [[0]]] Sample.widget_page.
Proof.
  apply batch_order_irrelevant.
  - by repeat constructor.
  - repeat constructor; by eexists.
  - apply Permutation_swap.
Defined.

